(** * dcos.util: validation-error reporting, JSON loading and file reading

    A shallow embedding of [src/dcos/util.py] (and of the request wrapper of
    [src/tests/util.py]) together with the properties its specification
    states about it.

    Modelling conventions.
    - Python text is a [string]; characters are compared by code point, which
      is what [String.compare] does.
    - A Python call that may raise is a function into [result]; the
      exception that escapes is the one the interpreter would propagate.
    - Logging is an explicit list of records written by the call.
    - Library collaborators whose code is not part of the repository (the
      regex engine's whitespace class, the JSON codec, the schema validation
      engine, the file system, the HTTP client) are variables of the section:
      every theorem holds for each of their behaviours. *)

From Stdlib Require Import String Ascii List Bool Arith ZArith Lia.
From Stdlib Require Import Permutation Sorted DecimalString OrderedTypeEx.
Import ListNotations.

Set Warnings "-register-all".

Local Open Scope list_scope.
Local Open Scope string_scope.

(** ** Exceptions and fallible calls *)

(** Exceptions of the interpreter and its libraries that the modelled code
    meets. *)
Inductive builtin_exc : Type :=
| IOError
| ValueError
| TypeError
| ConnectionError
| OtherError (name : string).

(** [DCOSException] is the one failure type the package raises itself. *)
Inductive exception : Type :=
| DCOSException (msg : string)
| Builtin (e : builtin_exc).

Inductive result (A : Type) : Type :=
| Ok (a : A)
| Raise (e : exception).

Arguments Ok {A} a.
Arguments Raise {A} e.

Definition bind {A B : Type} (r : result A) (k : A -> result B) : result B :=
  match r with
  | Ok a => k a
  | Raise e => Raise e
  end.

Notation "x <- c ;; k" := (bind c (fun x => k))
  (at level 61, c at next level, right associativity).

(** A list comprehension over a fallible body: elements are evaluated left to
    right and the first exception aborts the comprehension. *)
Fixpoint comprehension {A B : Type} (f : A -> result B) (l : list A)
  : result (list B) :=
  match l with
  | [] => Ok []
  | x :: xs =>
      y <- f x ;;
      ys <- comprehension f xs ;;
      Ok (y :: ys)
  end.

(** ** Text helpers *)

Definition newline : ascii := "010"%char.
Definition nl : string := String newline "".

(** [s] occurs in [t] as a contiguous piece. *)
Definition occurs_in (s t : string) : Prop :=
  exists pre post, t = pre ++ s ++ post.

(** [str.join(sep, items)] on items that are all text. *)
Fixpoint str_join (sep : string) (items : list string) : string :=
  match items with
  | [] => ""
  | [x] => x
  | x :: xs => x ++ sep ++ str_join sep xs
  end.

(** ** JSON values *)

(** The value model of the JSON codec (numbers are the integers; floats are
    outside the model). An object keeps its members in iteration order. *)
Inductive json : Type :=
| JNull
| JBool (b : bool)
| JInt (n : Z)
| JStr (s : string)
| JArr (items : list json)
| JObj (members : list (string * json)).

(** ** Validation errors *)

(** A segment of [ValidationError.absolute_path]: a property name or an
    array index. *)
Inductive path_segment : Type :=
| Key (k : string)
| Index (i : Z).

Record ValidationError : Type := mkValidationError {
  message : string;
  absolute_path : list path_segment;
  instance : json
}.

(** [sep.join(path)]: [str.join] accepts text items only and raises
    [TypeError] at the first item that is not text. *)
Fixpoint text_items (path : list path_segment) : result (list string) :=
  match path with
  | [] => Ok []
  | Key k :: rest =>
      ks <- text_items rest ;;
      Ok (k :: ks)
  | Index _ :: _ => Raise (Builtin TypeError)
  end.

Definition join_path (sep : string) (path : list path_segment) : result string :=
  ks <- text_items path ;;
  Ok (str_join sep ks).

(** ** Log records *)

Inductive log_arg : Type :=
| ArgText (s : string)
| ArgExcClass (name : string).

Inductive log_level : Type := LevelError | LevelFatal.

Record LogRecord : Type := mkLogRecord {
  level : log_level;
  fmt : string;
  args : list log_arg
}.

(** [six.u] marks a text literal; on text it is the identity. *)
Definition six_u (s : string) : string := s.

(** ** Python's [sorted(xs, key=...)] on text keys

    [sorted] is stable and compares keys with [<] only. Insertion from the
    right, placing an element before the first one whose key is not smaller,
    computes that unique stable arrangement. *)
Section Sorted.
Context {A : Type} (key : A -> string).

Fixpoint insert_by (x : A) (l : list A) : list A :=
  match l with
  | [] => [x]
  | y :: ys =>
      if (key y <? key x)%string then y :: insert_by x ys else x :: y :: ys
  end.

Fixpoint sorted (l : list A) : list A :=
  match l with
  | [] => []
  | x :: xs => insert_by x (sorted xs)
  end.

(** [a] may stand before [b]: the key of [b] is not smaller. *)
Definition key_le (a b : A) : Prop := (key b <? key a)%string = false.
Definition key_lt (a b : A) : Prop := (key a <? key b)%string = true.
End Sorted.

(** ** The regular expressions of the module *)

Definition is_u (c : ascii) : bool := Ascii.eqb c "u".
Definition is_quote (c : ascii) : bool := Ascii.eqb c "'".

(** [re.compile("^u'").sub("'", message)]: only the start of the text can
    match. *)
Definition sub_leading (msg : string) : string :=
  match msg with
  | String a (String b rest) =>
      if is_u a && is_quote b then String "'" rest else msg
  | _ => msg
  end.

Section Regex.
(** The class [\s] of the regex engine. *)
Variable re_space : ascii -> bool.

(** The character class [[\[\(\{\s]]. *)
Definition opening (c : ascii) : bool :=
  Ascii.eqb c "[" || Ascii.eqb c "(" || Ascii.eqb c "{" || re_space c.

(** [re.compile("([\[\(\{\s])u'").sub("\g<1>'", msg)]: matches are found
    left to right and do not overlap; a match of three characters is
    replaced by its first character and the quote, and the scan resumes
    behind the match. *)
Fixpoint sub_interior (msg : string) : string :=
  match msg with
  | "" => ""
  | String c t =>
      match t with
      | String a (String b rest) =>
          if opening c && is_u a && is_quote b
          then String c (String "'" (sub_interior rest))
          else String c (sub_interior t)
      | _ => String c (sub_interior t)
      end
  end.

Definition _hack_error_message_fix (msg : string) : string :=
  sub_interior (sub_leading msg).
End Regex.

(** [re.search("(.+) is a required property", msg)], returning group 1.

    [.] matches every character but the newline and [+] is greedy:
    [greedy_group s] is the longest non-empty run of such characters at the
    start of [s] that the literal follows; [re_search_required] tries the
    start positions from the left. *)
Definition required_literal : string := " is a required property".

Fixpoint greedy_group (s : string) : option string :=
  match s with
  | "" => None
  | String c t =>
      if Ascii.eqb c newline then None
      else
        match greedy_group t with
        | Some g => Some (String c g)
        | None =>
            if String.prefix required_literal t then Some (String c "")
            else None
        end
  end.

Fixpoint re_search_required (s : string) : option string :=
  match greedy_group s with
  | Some g => Some g
  | None =>
      match s with
      | "" => None
      | String _ t => re_search_required t
      end
  end.

(** No character of [s] is the newline, the one character [.] refuses. *)
Fixpoint no_newline (s : string) : bool :=
  match s with
  | "" => true
  | String c t => negb (Ascii.eqb c newline) && no_newline t
  end.

(** ** Formatting and validation *)

Section Reporter.
Variable re_space : ascii -> bool.
(** [json.dumps] of the JSON codec. *)
Variable json_dumps : json -> string.

Definition _format_validation_error (error : ValidationError) : result string :=
  let error_message := _hack_error_message_fix re_space (message error) in
  match re_search_required error_message with
  | Some group1 =>
      Ok ("Error: missing required property " ++ group1 ++ ".")
  | None =>
      let msg := "Error: " ++ error_message ++ nl in
      msg <- (if (0 <? List.length (absolute_path error))%nat
              then
                joined <- join_path "." (absolute_path error) ;;
                Ok (msg ++ "Path: " ++ joined ++ nl)
              else Ok msg) ;;
      Ok (msg ++ "Value: " ++ json_dumps (instance error))
  end.

Definition sort_key (ve : ValidationError) : string :=
  six_u (_hack_error_message_fix re_space (message ve)).

(** [list(jsonschema.Draft4Validator(schema).iter_errors(instance))]: the
    errors in the order the engine yields them, or the exception it
    raises. *)
Variable iter_errors : json -> json -> result (list ValidationError).

Definition validate_json (inst schema : json) : result (list string) :=
  validation_errors <- iter_errors schema inst ;;
  let validation_errors := sorted sort_key validation_errors in
  comprehension _format_validation_error validation_errors.
End Reporter.

Definition list_to_err (errs : list string) : string :=
  str_join (nl ++ nl) errs.

(** ** Loading JSON text *)

Definition class_name (e : exception) : string :=
  match e with
  | DCOSException _ => "DCOSException"
  | Builtin IOError => "IOError"
  | Builtin ValueError => "ValueError"
  | Builtin TypeError => "TypeError"
  | Builtin ConnectionError => "ConnectionError"
  | Builtin (OtherError name) => name
  end.

Section Codec.
(** [json.loads] of the JSON codec: the value, or the exception raised on
    text that is not JSON. *)
Variable json_loads : string -> result json.

(** The records written to the module logger, and the outcome. *)
Definition load_jsons (value : string) : list LogRecord * result json :=
  match json_loads value with
  | Ok v => ([], Ok v)
  | Raise e =>
      ([mkLogRecord LevelError
          "Unhandled exception while loading JSON: %r -- %r"
          [ArgText value; ArgExcClass (class_name e)]],
       Raise (DCOSException "Error loading JSON."))
  end.
End Codec.

(** ** Reading a file *)

Section Files.
(** [os.path.isfile]. *)
Variable isfile : string -> bool.
(** [with open(path) as fd: fd.read()]: the contents, or the exception of
    the interpreter. *)
Variable open_read : string -> builtin_exc + string.
(** Whether [except IOError] catches an exception: its class is [IOError]
    or derives from it. *)
Variable isinstance_IOError : builtin_exc -> bool.

Definition read_file (path : string) : result string :=
  if negb (isfile path)
  then Raise (DCOSException ("Path [" ++ path ++ "] is not a file"))
  else
    match open_read path with
    | inr contents => Ok contents
    | inl e =>
        if isinstance_IOError e
        then Raise (DCOSException ("Unable to open file [" ++ path ++ "]"))
        else Raise (Builtin e)
    end.
End Files.

(** ** The request wrapper of the tests *)

Record kwargs : Type := mkKwargs {
  headers : option (list (string * string));
  other_kwargs : list (string * json)
}.

(** [dict.update] on a dictionary kept in insertion order. *)
Fixpoint dict_set (k v : string) (d : list (string * string))
  : list (string * string) :=
  match d with
  | [] => [(k, v)]
  | (k', v') :: rest =>
      if String.eqb k' k then (k, v) :: rest else (k', v') :: dict_set k v rest
  end.

Definition dict_update (d upd : list (string * string)) : list (string * string) :=
  fold_left (fun acc kv => dict_set (fst kv) (snd kv) acc) upd d.

Inductive http_outcome : Type :=
| Response (body : string)
| HttpRaise (e : builtin_exc).

Module ServerRequest.
Definition _base_url : string := "/v2/apps/".
Definition _headers : list (string * string) :=
  [("content-type", "application/json")].

(** The names the module binds at its top level: its one import and its
    class. Loading any other global name raises [NameError]. *)
Definition module_globals : list string := ["requests"; "ServerRequest"].

Definition load_global (name : string) : result unit :=
  if existsb (String.eqb name) module_globals then Ok tt
  else Raise (Builtin (OtherError "NameError")).

Section Req.
(** [hasattr(requests, method)]. *)
Variable requests_has : string -> bool.
(** What the names [config], [urlparse] and [MISSING_SERVER] would denote
    were they bound; they are used behind the loading of those names. *)
Variable config_current_url : string.
Variable config_current_host : string.
Variable urljoin : string -> string -> string.
(** [MISSING_SERVER.format(host)]. *)
Variable missing_server : string -> string.
(** [getattr(requests, method)(url, **kwargs)]: the response, or the
    exception of the call. *)
Variable requests_call : string -> string -> kwargs -> http_outcome.
(** [response.json()] decodes the body with the JSON codec. *)
Variable json_loads : string -> result json.

(** The expression of the [try] block, evaluated in Python's order: the
    callee [getattr(requests, method)], then the argument, which starts
    with the global [urlparse], then the call and the decoding. *)
Definition try_body (method path : string) (kw : kwargs) : result json :=
  g1 <- load_global "requests" ;;
  g2 <- (if requests_has method then Ok tt
         else Raise (Builtin (OtherError "AttributeError"))) ;;
  g3 <- load_global "urlparse" ;;
  g4 <- load_global "config" ;;
  match requests_call method (urljoin config_current_url path) kw with
  | Response body => json_loads body
  | HttpRaise e => Raise (Builtin e)
  end.

(** The records written to [log], and the outcome; Python's [None] is
    [JNull]. The two handlers catch [ValueError] and the client's
    [ConnectionError]; the second one loads [log], [MISSING_SERVER] and
    [config] before it logs. *)
Definition _req (method : string) (url : option string) (kw : kwargs)
  : list LogRecord * result json :=
  let hd := match headers kw with
            | Some h => h
            | None => []
            end in
  let kw := mkKwargs (Some (dict_update hd _headers)) (other_kwargs kw) in
  let u := match url with
           | Some (String c rest) => [_base_url; String c rest]
           | _ => [_base_url]
           end in
  match try_body method (str_join "/" u) kw with
  | Ok v => ([], Ok v)
  | Raise (Builtin ValueError) => ([], Ok JNull)
  | Raise (Builtin ConnectionError) =>
      match (g1 <- load_global "log" ;;
             g2 <- load_global "MISSING_SERVER" ;;
             load_global "config") with
      | Ok _ =>
          ([mkLogRecord LevelFatal (missing_server config_current_host) []],
           Ok JNull)
      | Raise e => ([], Raise e)
      end
  | Raise e => ([], Raise e)
  end.
End Req.
End ServerRequest.

(** ** The specification's reading of the normalisation

    The specification describes the clean-up by positions: a marker is a
    [u] immediately before a quote, and it is removed when it stands at the
    start of the text or behind a whitespace character or an opening
    bracket, brace or parenthesis. [prev] is the character before the
    current position ([None] at the start of the text). *)
Section MarkerSpec.
Variable re_space : ascii -> bool.

Definition starts_with_quote (s : string) : bool :=
  match s with
  | String b _ => is_quote b
  | "" => false
  end.

Definition allowed_before (prev : option ascii) : bool :=
  match prev with
  | None => true
  | Some p => opening re_space p
  end.

Definition marker_here (prev : option ascii) (c : ascii) (t : string) : bool :=
  is_u c && starts_with_quote t && allowed_before prev.

Fixpoint strip_markers_from (prev : option ascii) (s : string) : string :=
  match s with
  | "" => ""
  | String c t =>
      if marker_here prev c t
      then strip_markers_from (Some c) t
      else String c (strip_markers_from (Some c) t)
  end.

Definition strip_markers (s : string) : string := strip_markers_from None s.

Fixpoint marker_after (prev : option ascii) (s : string) : bool :=
  match s with
  | "" => false
  | String c t => marker_here prev c t || marker_after (Some c) t
  end.

Definition has_marker (s : string) : bool := marker_after None s.
End MarkerSpec.

(** ** Concrete collaborators for running the definitions *)

Definition dquote : ascii := "034"%char.
Definition backslash : ascii := "092"%char.

Definition hex_digit (n : nat) : ascii :=
  match String.get n "0123456789abcdef" with
  | Some c => c
  | None => "0"%char
  end.

(** One character inside a JSON string literal, with the codec's default
    of escaping everything outside the printable ASCII range. *)
Definition escape_char (c : ascii) : string :=
  let n := nat_of_ascii c in
  if Ascii.eqb c dquote then String backslash (String dquote "")
  else if Ascii.eqb c backslash then String backslash (String backslash "")
  else if (n =? 10)%nat then String backslash "n"
  else if (n =? 13)%nat then String backslash "r"
  else if (n =? 9)%nat then String backslash "t"
  else if (n =? 8)%nat then String backslash "b"
  else if (n =? 12)%nat then String backslash "f"
  else if ((32 <=? n) && (n <=? 126))%nat then String c ""
  else String backslash
         ("u00" ++ String (hex_digit (n / 16)) (String (hex_digit (n mod 16)) "")).

Fixpoint escape_text (s : string) : string :=
  match s with
  | "" => ""
  | String c t => escape_char c ++ escape_text t
  end.

Definition json_string (s : string) : string :=
  String dquote (escape_text s ++ String dquote "").

(** The text the codec writes for a value with its default settings:
    [", "] between items and [": "] between a key and its value. *)
Fixpoint py_json_dumps (v : json) : string :=
  match v with
  | JNull => "null"
  | JBool true => "true"
  | JBool false => "false"
  | JInt n => DecimalString.NilZero.string_of_int (Z.to_int n)
  | JStr s => json_string s
  | JArr items =>
      "[" ++
      (fix items_text (l : list json) : string :=
         match l with
         | [] => ""
         | x :: rest =>
             match rest with
             | [] => py_json_dumps x
             | _ => py_json_dumps x ++ ", " ++ items_text rest
             end
         end) items ++ "]"
  | JObj members =>
      "{" ++
      (fix members_text (l : list (string * json)) : string :=
         match l with
         | [] => ""
         | (k, x) :: rest =>
             match rest with
             | [] => json_string k ++ ": " ++ py_json_dumps x
             | _ => json_string k ++ ": " ++ py_json_dumps x ++ ", " ++ members_text rest
             end
         end) members ++ "}"
  end.

(** A codec that knows the three literals only; on any other text, such as
    an unclosed brace, it raises [ValueError] as [json.loads] does on text
    that is not JSON. *)
Definition literal_json_loads (text : string) : result json :=
  if String.eqb text "null" then Ok JNull
  else if String.eqb text "true" then Ok (JBool true)
  else if String.eqb text "false" then Ok (JBool false)
  else Raise (Builtin ValueError).

(** Two errors of one message at two places: what the engine reports for
    the instance [{"a": 1, "b": 1}] under a schema that wants both
    properties to be strings. *)
Definition err_a : ValidationError :=
  mkValidationError "1 is not of type u'string'" [Key "a"] (JInt 1).
Definition err_b : ValidationError :=
  mkValidationError "1 is not of type u'string'" [Key "b"] (JInt 1).
Definition two_ints : json := JObj [("a", JInt 1); ("b", JInt 1)].
Definition two_strings_schema : json :=
  JObj [("properties",
         JObj [("a", JObj [("type", JStr "string")]);
               ("b", JObj [("type", JStr "string")])])].

(** An error below an array: the second segment of its path is the index
    of the offending item. *)
Definition err_item : ValidationError :=
  mkValidationError "'x' is not of type 'integer'" [Key "ports"; Index 0] (JStr "x").

(** A missing property, as the engine words it. *)
Definition err_required : ValidationError :=
  mkValidationError "u'name' is a required property" [] (JObj []).

Definition err_age : ValidationError :=
  mkValidationError "u'old' is not of type u'integer'" [Key "age"] (JStr "old").

(** ** Locating a program *)

(** [s.split(sep)] for a separator of one character: the pieces between the
    separators, of which there is always at least one. *)
Fixpoint str_split (sep : ascii) (s : string) : list string :=
  match s with
  | "" => [""]
  | String c t =>
      if Ascii.eqb c sep then "" :: str_split sep t
      else
        match str_split sep t with
        | w :: ws => String c w :: ws
        | [] => [String c ""]
        end
  end.

Fixpoint lstrip_char (ch : ascii) (s : string) : string :=
  match s with
  | "" => ""
  | String c t => if Ascii.eqb c ch then lstrip_char ch t else s
  end.

Fixpoint rstrip_char (ch : ascii) (s : string) : string :=
  match s with
  | "" => ""
  | String c t =>
      match rstrip_char ch t with
      | "" => if Ascii.eqb c ch then "" else String c ""
      | t' => String c t'
      end
  end.

(** [s.strip(ch)] for one character [ch]. *)
Definition strip_char (ch : ascii) (s : string) : string :=
  rstrip_char ch (lstrip_char ch s).

Section Which.
(** [os.path.isfile] and [os.access(_, os.X_OK)]. *)
Variable isfile : string -> bool.
Variable access_x : string -> bool.
(** [os.path.split], [os.path.join] and [os.pathsep], which is one
    character on every platform. *)
Variable os_path_split : string -> string * string.
Variable os_path_join : string -> string -> string.
Variable pathsep : ascii.
(** [os.environ] and [constants.PATH_ENV]. *)
Variable environ : string -> option string.
Variable PATH_ENV : string.

Definition is_exe (file_path : string) : bool :=
  isfile file_path && access_x file_path.

(** The candidates the loop over the search path builds, in its order. *)
Definition exe_files (program search_path : string) : list string :=
  map (fun path => os_path_join (strip_char dquote path) program)
      (str_split pathsep search_path).

(** Python's [None] is [None]. *)
Definition which (program : string) : option string :=
  let (file_path, filename) := os_path_split program in
  if negb (String.eqb file_path "")
  then (if is_exe program then Some program else None)
  else
    match environ PATH_ENV with
    | Some search_path => find is_exe (exe_files program search_path)
    | None => None
    end.
End Which.

(** ** Rendering a template as JSON *)



Section Mustache.
(** [CustomJsonRenderer().render(template, data)]: the rendered text, or the
    exception of the renderer. *)
Variable render : string -> json -> result string.
(** The text of an exception, which [DCOSException(e)] carries. *)
Variable exc_text : exception -> string.
Variable json_loads : string -> result json.

End Mustache.

(** ** Notions the further properties are stated with *)

(** The text without its characters [u]. *)
Fixpoint drop_u (s : string) : string :=
  match s with
  | "" => ""
  | String c t => if is_u c then drop_u t else String c (drop_u t)
  end.

Definition is_key (seg : path_segment) : bool :=
  match seg with
  | Key _ => true
  | Index _ => false
  end.

Section Notions.
Variable re_space : ascii -> bool.

(** The number of markers of a text, [prev] being the character before it. *)
Fixpoint count_markers_from (prev : option ascii) (s : string) : nat :=
  match s with
  | "" => 0
  | String c t =>
      (if marker_here re_space prev c t then 1 else 0)
      + count_markers_from (Some c) t
  end.

Definition count_markers (s : string) : nat := count_markers_from None s.

(** An error with a required-property message, or with a path of property
    names only. *)
Definition formattable (error : ValidationError) : bool :=
  match re_search_required (_hack_error_message_fix re_space (message error)) with
  | Some _ => true
  | None => forallb is_key (absolute_path error)
  end.
End Notions.

(** [posixpath.split] before its head is tidied: the text up to and with
    the last slash, and the text behind it. *)
Fixpoint posix_split_raw (p : string) : string * string :=
  match p with
  | "" => ("", "")
  | String c t =>
      let (head, tail) := posix_split_raw t in
      if String.eqb head ""
      then (if Ascii.eqb c "/" then ("/", t) else ("", String c t))
      else (String c head, tail)
  end.

(** [posixpath.split]: trailing slashes leave the head unless it consists
    of slashes. *)
Definition posix_split (p : string) : string * string :=
  let (head, tail) := posix_split_raw p in
  if String.eqb (lstrip_char "/" head) "" then (head, tail)
  else (rstrip_char "/" head, tail).

Fixpoint ends_with_slash (a : string) : bool :=
  match a with
  | "" => false
  | String c "" => Ascii.eqb c "/"
  | String _ t => ends_with_slash t
  end.

(** [posixpath.join] of two components. *)
Definition posix_join (a b : string) : string :=
  match b with
  | String "/" _ => b
  | _ => if String.eqb a "" || ends_with_slash a then a ++ b else a ++ "/" ++ b
  end.

(** An environment with a search path of three entries, the second in
    double quotes, and one program installed. *)
Definition sample_environ (name : string) : option string :=
  if String.eqb name "PATH"
  then Some ("/usr/local/bin:" ++ String dquote ("/opt/my tools" ++ String dquote ":/usr/bin"))
  else None.

Definition sample_isfile (p : string) : bool :=
  String.eqb p "/usr/bin/docker" || String.eqb p "/opt/my tools/readme".

Definition sample_access_x (p : string) : bool := String.eqb p "/usr/bin/docker".

(** The classes that derive from [IOError] in the interpreter: the
    operating-system errors, and the client's [ConnectionError]. *)
Definition py_isinstance_IOError (e : builtin_exc) : bool :=
  match e with
  | IOError => true
  | ConnectionError => true
  | OtherError name =>
      existsb (String.eqb name)
        ["OSError"; "EnvironmentError"; "FileNotFoundError"; "PermissionError";
         "IsADirectoryError"; "NotADirectoryError"; "FileExistsError";
         "InterruptedError"; "BlockingIOError"; "TimeoutError"; "BrokenPipeError"]
  | _ => false
  end.

(** Every character of [s] is [ch]. *)
Fixpoint all_char (ch : ascii) (s : string) : bool :=
  match s with
  | "" => true
  | String c t => Ascii.eqb c ch && all_char ch t
  end.

Fixpoint has_char (ch : ascii) (s : string) : bool :=
  match s with
  | "" => false
  | String c t => Ascii.eqb c ch || has_char ch t
  end.

Definition starts_with_char (ch : ascii) (s : string) : bool :=
  match s with
  | String c _ => Ascii.eqb c ch
  | "" => false
  end.

Fixpoint ends_with_char (ch : ascii) (s : string) : bool :=
  match s with
  | "" => false
  | String c "" => Ascii.eqb c ch
  | String _ t => ends_with_char ch t
  end.

(** The six characters [ \t\n\r\f\v]. *)
Definition ascii_space (c : ascii) : bool :=
  let n := nat_of_ascii c in
  ((n =? 32) || ((9 <=? n) && (n <=? 13)))%nat.

Example hack_fix_leading :
  _hack_error_message_fix ascii_space "u'name' is a required property"
  = "'name' is a required property".
Proof. reflexivity. Qed.

Example hack_fix_interior :
  _hack_error_message_fix ascii_space "[u'a', u'b'] is not one of (u'c', {u'd': 1})"
  = "['a', 'b'] is not one of ('c', {'d': 1})".
Proof. reflexivity. Qed.

Example hack_fix_keeps_other_u :
  _hack_error_message_fix ascii_space "you'd: xu'y' au'"
  = "you'd: xu'y' au'".
Proof. reflexivity. Qed.

Example dumps_sample :
  py_json_dumps (JObj [("a", JArr [JInt 1; JInt (-2); JNull]); ("b", JStr "x"); ("c", JBool true)])
  = String "{" (String dquote ("a" ++ String dquote (": [1, -2, null], " ++
    String dquote ("b" ++ String dquote (": " ++ String dquote ("x" ++ String dquote (", " ++
    String dquote ("c" ++ String dquote ": true}")))))))).
Proof. reflexivity. Qed.

(** * Properties *)

(** ** Normalisation of messages *)

Section RegexFacts.
Variable re_space : ascii -> bool.

Lemma is_quote_true (b : ascii) : is_quote b = true -> b = "'"%char.
Proof. unfold is_quote. intros H. now apply Ascii.eqb_eq in H. Qed.

Lemma is_u_true (a : ascii) : is_u a = true -> a = "u"%char.
Proof. unfold is_u. intros H. now apply Ascii.eqb_eq in H. Qed.

Lemma sub_interior_no_match (c : ascii) (t : string) :
  marker_here re_space (Some c) (match t with String a _ => a | "" => c end)
              (match t with String _ r => r | "" => "" end) = false ->
  sub_interior re_space (String c t) = String c (sub_interior re_space t).
Proof.
  destruct t as [|a [|b rest]]; try reflexivity.
  unfold marker_here; simpl. intros H.
  destruct (opening re_space c), (is_u a), (is_quote b);
    simpl in *; try reflexivity; discriminate.
Qed.

(** A text without marker behind its first character is left alone by the
    interior pass. *)
Lemma sub_interior_clean (n : nat) :
  forall (t : string) (c : ascii),
    String.length t <= n ->
    marker_after re_space (Some c) t = false ->
    sub_interior re_space (String c t) = String c t.
Proof.
  induction n as [|n IH]; intros t c Hlen Hclean.
  - destruct t; [reflexivity | simpl in Hlen; lia].
  - destruct t as [|a t']; [reflexivity|].
    simpl in Hclean. apply orb_false_iff in Hclean as [Hhere Hrest].
    rewrite sub_interior_no_match by exact Hhere.
    f_equal. apply IH; [simpl in Hlen; lia | exact Hrest].
Qed.

Lemma hack_fix_clean (msg : string) :
  has_marker re_space msg = false ->
  _hack_error_message_fix re_space msg = msg.
Proof.
  unfold has_marker, _hack_error_message_fix. intros H.
  destruct msg as [|a t]; [reflexivity|].
  simpl in H. apply orb_false_iff in H as [Hhere Hrest].
  assert (Hlead : sub_leading (String a t) = String a t).
  { destruct t as [|b rest]; [reflexivity|].
    unfold marker_here in Hhere. simpl in Hhere |- *.
    rewrite andb_true_r in Hhere. now rewrite Hhere. }
  rewrite Hlead.
  now apply (sub_interior_clean (String.length t)).
Qed.

Section QuoteIsNoSpace.
Hypothesis quote_no_space : re_space "'" = false.

Lemma opening_quote : opening re_space "'" = false.
Proof. unfold opening. now rewrite quote_no_space. Qed.

(** Behind a character that is no opening one, the next character is
    kept. *)
Lemma strip_after_quote (t : string) :
  strip_markers_from re_space (Some "'"%char) t
  = match t with
    | "" => ""
    | String c r => String c (strip_markers_from re_space (Some c) r)
    end.
Proof.
  destruct t as [|c r]; [reflexivity|].
  simpl. unfold marker_here. simpl. rewrite opening_quote.
  now rewrite andb_false_r.
Qed.

Lemma sub_interior_strip (n : nat) :
  forall (t : string) (c : ascii),
    String.length t <= n ->
    sub_interior re_space (String c t)
    = String c (strip_markers_from re_space (Some c) t).
Proof.
  induction n as [|n IH]; intros t c Hlen.
  - destruct t; [reflexivity | simpl in Hlen; lia].
  - destruct t as [|a [|b rest]].
    + reflexivity.
    + simpl. unfold marker_here. simpl. now rewrite andb_false_r.
    + simpl in Hlen.
      change (sub_interior re_space (String c (String a (String b rest))))
        with (if opening re_space c && is_u a && is_quote b
              then String c (String "'" (sub_interior re_space rest))
              else String c (sub_interior re_space (String a (String b rest)))).
      change (strip_markers_from re_space (Some c) (String a (String b rest)))
        with (if is_u a && is_quote b && opening re_space c
              then strip_markers_from re_space (Some a) (String b rest)
              else String a (strip_markers_from re_space (Some a) (String b rest))).
      replace (opening re_space c && is_u a && is_quote b)
        with (is_u a && is_quote b && opening re_space c)
        by (destruct (opening re_space c), (is_u a), (is_quote b); reflexivity).
      destruct (is_u a && is_quote b && opening re_space c) eqn:Hm.
      * apply andb_true_iff in Hm as [Hm _].
        apply andb_true_iff in Hm as [_ Hb].
        apply is_quote_true in Hb. subst b.
        f_equal.
        change (strip_markers_from re_space (Some a) (String "'" rest))
          with (if marker_here re_space (Some a) "'" rest
                then strip_markers_from re_space (Some "'"%char) rest
                else String "'" (strip_markers_from re_space (Some "'"%char) rest)).
        unfold marker_here at 1. simpl (is_u "'").
        simpl. f_equal.
        rewrite strip_after_quote.
        destruct rest as [|c' r']; [reflexivity|].
        apply IH. simpl in Hlen. lia.
      * f_equal. apply IH. simpl. lia.
Qed.

Lemma hack_fix_strip_markers (msg : string) :
  _hack_error_message_fix re_space msg = strip_markers re_space msg.
Proof.
  unfold _hack_error_message_fix, strip_markers.
  destruct msg as [|a [|b rest]].
  - reflexivity.
  - simpl. unfold marker_here. simpl. now rewrite andb_false_r.
  - unfold sub_leading.
    change (strip_markers_from re_space None (String a (String b rest)))
      with (if is_u a && is_quote b && true
            then strip_markers_from re_space (Some a) (String b rest)
            else String a (strip_markers_from re_space (Some a) (String b rest))).
    rewrite andb_true_r.
    destruct (is_u a && is_quote b) eqn:Hm.
    + apply andb_true_iff in Hm as [_ Hb]. apply is_quote_true in Hb. subst b.
      rewrite (sub_interior_strip (String.length rest)) by lia.
      simpl. unfold marker_here. simpl. reflexivity.
    + apply (sub_interior_strip (String.length (String b rest))). lia.
Qed.
End QuoteIsNoSpace.

(** The quote behind a removed marker is kept. *)
Lemma strip_after_quote_kept (r : string) :
  strip_markers_from re_space (Some "u"%char) (String "'" r)
  = String "'" (strip_markers_from re_space (Some "'"%char) r).
Proof. reflexivity. Qed.
End RegexFacts.

(** ** Code-point order on text *)

Lemma ltb_irrefl (a : string) : (a <? a)%string = false.
Proof.
  unfold String.ltb.
  destruct (String.compare a a) eqn:E; try reflexivity.
  pose proof (String.compare_antisym a a) as H. rewrite E in H. discriminate.
Qed.

Lemma ltb_trans (a b c : string) :
  (a <? b)%string = true -> (b <? c)%string = true -> (a <? c)%string = true.
Proof.
  unfold String.ltb. intros Hab Hbc.
  destruct (String.compare a b) eqn:Eab; try discriminate.
  destruct (String.compare b c) eqn:Ebc; try discriminate.
  apply String_as_OT.cmp_lt in Eab, Ebc.
  pose proof (String_as_OT.lt_trans _ _ _ Eab Ebc) as Hac.
  apply String_as_OT.cmp_lt in Hac. unfold String_as_OT.cmp in Hac.
  now rewrite Hac.
Qed.

Lemma ltb_asym (a b : string) :
  (a <? b)%string = true -> (b <? a)%string = false.
Proof.
  intros Hab. destruct (b <? a)%string eqn:Hba; [|reflexivity].
  pose proof (ltb_trans _ _ _ Hab Hba) as H. now rewrite ltb_irrefl in H.
Qed.

Lemma ltb_trichotomy (a b : string) :
  (a <? b)%string = false -> (b <? a)%string = false -> a = b.
Proof.
  unfold String.ltb. rewrite (String.compare_antisym b a).
  destruct (String.compare a b) eqn:E; simpl; try discriminate.
  intros _ _. now apply String.compare_eq_iff.
Qed.

(** ** [sorted] *)

Section SortedFacts.
Context {A : Type} (key : A -> string).

Lemma key_lt_le (a b : A) : key_lt key a b -> key_le key a b.
Proof. apply ltb_asym. Qed.

Lemma key_le_trans (a b c : A) : key_le key a b -> key_le key b c -> key_le key a c.
Proof.
  unfold key_le. intros Hab Hbc.
  destruct (key c <? key a)%string eqn:Hca; [|reflexivity].
  destruct (key b <? key c)%string eqn:Hbc'.
  - pose proof (ltb_trans _ _ _ Hbc' Hca) as H. congruence.
  - pose proof (ltb_trichotomy _ _ Hbc Hbc') as E. rewrite <- E in Hab. congruence.
Qed.

Lemma insert_by_perm (x : A) (l : list A) :
  Permutation (insert_by key x l) (x :: l).
Proof.
  induction l as [|y ys IH]; simpl; [reflexivity|].
  destruct (key y <? key x)%string; [|reflexivity].
  rewrite IH. apply perm_swap.
Qed.

Lemma sorted_perm (l : list A) : Permutation (sorted key l) l.
Proof.
  induction l as [|x xs IH]; simpl; [reflexivity|].
  rewrite insert_by_perm. now constructor.
Qed.

Lemma insert_by_sorted (x : A) (l : list A) :
  StronglySorted (key_le key) l -> StronglySorted (key_le key) (insert_by key x l).
Proof.
  induction l as [|y ys IH]; intros Hs; simpl.
  - repeat constructor.
  - inversion Hs as [|? ? Hys Hall]; subst.
    destruct (key y <? key x)%string eqn:Hyx.
    + constructor; [now apply IH|].
      apply (Permutation_Forall (Permutation_sym (insert_by_perm x ys))).
      constructor; [|exact Hall]. now apply key_lt_le.
    + constructor; [exact Hs|].
      constructor; [exact Hyx|].
      eapply Forall_impl; [|exact Hall].
      intros z Hz. eapply key_le_trans; [exact Hyx | exact Hz].
Qed.

Lemma sorted_sorted (l : list A) : StronglySorted (key_le key) (sorted key l).
Proof.
  induction l as [|x xs IH]; simpl; [constructor|].
  now apply insert_by_sorted.
Qed.

(** The elements of one key keep the relative order they came in. *)
Lemma insert_by_stable (k : string) (x : A) (l : list A) :
  filter (fun e => String.eqb (key e) k) (insert_by key x l)
  = filter (fun e => String.eqb (key e) k) (x :: l).
Proof.
  induction l as [|y ys IH]; [reflexivity|].
  simpl insert_by. destruct (key y <? key x)%string eqn:Hyx; [|reflexivity].
  simpl filter at 1. rewrite IH. simpl.
  destruct (String.eqb (key y) k) eqn:Ey; [|reflexivity].
  destruct (String.eqb (key x) k) eqn:Ex; [|reflexivity].
  apply String.eqb_eq in Ey, Ex. rewrite Ey, Ex, ltb_irrefl in Hyx. discriminate.
Qed.

Lemma sorted_stable (k : string) (l : list A) :
  filter (fun e => String.eqb (key e) k) (sorted key l)
  = filter (fun e => String.eqb (key e) k) l.
Proof.
  induction l as [|x xs IH]; [reflexivity|].
  simpl sorted. rewrite insert_by_stable. simpl. now rewrite IH.
Qed.

Lemma strongly_sorted_nth (R : A -> A -> Prop) (l : list A) :
  StronglySorted R l ->
  forall i j a b, i < j ->
    nth_error l i = Some a -> nth_error l j = Some b -> R a b.
Proof.
  induction 1 as [|x xs Hs IH Hall]; intros i j a b Hij Hi Hj.
  - destruct i; discriminate.
  - destruct j as [|j]; [lia|].
    destruct i as [|i]; simpl in Hi, Hj.
    + injection Hi as <-. rewrite Forall_forall in Hall.
      apply Hall. eapply nth_error_In; eassumption.
    + apply (IH i j); [lia | assumption | assumption].
Qed.

(** In the sorted list an element with a smaller key stands first. *)
Lemma sorted_precedes (l : list A) (i j : nat) (a b : A) :
  nth_error (sorted key l) i = Some a ->
  nth_error (sorted key l) j = Some b ->
  key_lt key a b -> i < j.
Proof.
  intros Hi Hj Hlt. unfold key_lt in Hlt.
  destruct (Nat.lt_trichotomy i j) as [H|[H|H]]; [exact H| |].
  - subst j. rewrite Hi in Hj. injection Hj as <-.
    rewrite ltb_irrefl in Hlt. discriminate.
  - pose proof (strongly_sorted_nth (key_le key) _ (sorted_sorted l) j i b a H Hj Hi) as Hle.
    unfold key_le in Hle. congruence.
Qed.

(** Sorted lists of pairwise distinct keys are determined by their
    elements. *)
Lemma strict_sorted_unique (l1 : list A) :
  forall l2, StronglySorted (key_lt key) l1 -> StronglySorted (key_lt key) l2 ->
             Permutation l1 l2 -> l1 = l2.
Proof.
  induction l1 as [|a l1 IH]; intros l2 H1 H2 Hp.
  - now apply Permutation_nil in Hp.
  - destruct l2 as [|b l2].
    { apply Permutation_sym, Permutation_nil in Hp. discriminate. }
    inversion H1 as [|? ? H1' Ha]; subst.
    inversion H2 as [|? ? H2' Hb]; subst.
    rewrite Forall_forall in Ha, Hb.
    assert (Hab : a = b).
    { assert (Ia : In a (b :: l2)) by (eapply Permutation_in; [exact Hp | now left]).
      assert (Ib : In b (a :: l1))
        by (eapply Permutation_in; [exact (Permutation_sym Hp) | now left]).
      destruct Ia as [Ia|Ia]; [now symmetry|].
      destruct Ib as [Ib|Ib]; [exact Ib|].
      pose proof (Hb _ Ia) as Hba. pose proof (Ha _ Ib) as Hab.
      unfold key_lt in *. pose proof (ltb_asym _ _ Hba). congruence. }
    subst b. f_equal. apply IH; try assumption.
    eapply Permutation_cons_inv; exact Hp.
Qed.

Lemma sorted_distinct_strict (l : list A) :
  StronglySorted (key_le key) l -> NoDup (map key l) -> StronglySorted (key_lt key) l.
Proof.
  induction 1 as [|x xs Hs IH Hall]; intros Hnd; [constructor|].
  simpl in Hnd. inversion Hnd as [|? ? Hnotin Hnd']; subst.
  constructor; [now apply IH|].
  rewrite Forall_forall in Hall |- *. intros y Hy.
  pose proof (Hall y Hy) as Hle. unfold key_le in Hle. unfold key_lt.
  destruct (key x <? key y)%string eqn:Hxy; [reflexivity|].
  exfalso. apply Hnotin.
  rewrite (ltb_trichotomy _ _ Hxy Hle). now apply in_map.
Qed.

(** With pairwise distinct keys the result does not depend on the order
    of the input. *)
Lemma sorted_order_independent (l1 l2 : list A) :
  Permutation l1 l2 -> NoDup (map key l1) -> sorted key l1 = sorted key l2.
Proof.
  intros Hp Hnd.
  assert (Hnd2 : NoDup (map key l2)).
  { eapply Permutation_NoDup; [|exact Hnd]. now apply Permutation_map. }
  apply strict_sorted_unique.
  - apply sorted_distinct_strict; [apply sorted_sorted|].
    eapply Permutation_NoDup; [|exact Hnd].
    apply Permutation_map, Permutation_sym, sorted_perm.
  - apply sorted_distinct_strict; [apply sorted_sorted|].
    eapply Permutation_NoDup; [|exact Hnd2].
    apply Permutation_map, Permutation_sym, sorted_perm.
  - rewrite sorted_perm, Hp. symmetry. apply sorted_perm.
Qed.

(** There is one stable sorted arrangement: whatever algorithm produces a
    list that is sorted by key and keeps the elements of each key in
    their order, it produces this list. *)
Lemma stable_sorted_unique (l1 : list A) :
  forall l2,
    StronglySorted (key_le key) l1 -> StronglySorted (key_le key) l2 ->
    (forall k, filter (fun e => String.eqb (key e) k) l1
               = filter (fun e => String.eqb (key e) k) l2) ->
    l1 = l2.
Proof.
  induction l1 as [|a l1 IH]; intros l2 H1 H2 Hf.
  - destruct l2 as [|b l2]; [reflexivity|].
    specialize (Hf (key b)). simpl in Hf. rewrite String.eqb_refl in Hf. discriminate.
  - destruct l2 as [|b l2].
    { specialize (Hf (key a)). simpl in Hf. rewrite String.eqb_refl in Hf. discriminate. }
    inversion H1 as [|? ? H1' Ha]; subst.
    inversion H2 as [|? ? H2' Hb]; subst.
    rewrite Forall_forall in Ha, Hb.
    assert (Hab : a = b).
    { pose proof (Hf (key a)) as Fa. pose proof (Hf (key b)) as Fb.
      simpl in Fa, Fb. rewrite String.eqb_refl in Fa, Fb.
      destruct (String.eqb (key b) (key a)) eqn:E.
      - now injection Fa.
      - rewrite String.eqb_sym, E in Fb.
        assert (Ia : In a l2).
        { eapply proj1. apply filter_In. rewrite <- Fa. now left. }
        assert (Ib : In b l1).
        { eapply proj1. apply filter_In. rewrite Fb. now left. }
        pose proof (Hb _ Ia) as Hba. pose proof (Ha _ Ib) as Hab'.
        unfold key_le in *.
        rewrite (ltb_trichotomy _ _ Hab' Hba), String.eqb_refl in E. discriminate. }
    subst b. f_equal. apply IH; try assumption.
    intros k. specialize (Hf k). simpl in Hf.
    destruct (String.eqb (key a) k); [now injection Hf | exact Hf].
Qed.

Lemma sorted_is_stable_sort (l l' : list A) :
  StronglySorted (key_le key) l' ->
  (forall k, filter (fun e => String.eqb (key e) k) l'
             = filter (fun e => String.eqb (key e) k) l) ->
  l' = sorted key l.
Proof.
  intros Hs Hf. apply stable_sorted_unique; [exact Hs | apply sorted_sorted |].
  intros k. now rewrite sorted_stable.
Qed.
End SortedFacts.

(** ** Text *)

Lemma append_assoc (a b c : string) : (a ++ b) ++ c = a ++ b ++ c.
Proof. induction a as [|x a IH]; simpl; [reflexivity | now rewrite IH]. Qed.

Lemma append_nil_r (a : string) : a ++ "" = a.
Proof. induction a as [|x a IH]; simpl; [reflexivity | now rewrite IH]. Qed.

Lemma length_append (a b : string) :
  String.length (a ++ b) = String.length a + String.length b.
Proof. induction a as [|x a IH]; simpl; [reflexivity | now rewrite IH]. Qed.

Lemma occurs_in_middle (pre s post : string) : occurs_in s (pre ++ s ++ post).
Proof. now exists pre, post. Qed.


(** ** The required-property pattern *)

Lemma prefix_refl (s : string) : String.prefix s s = true.
Proof.
  induction s as [|c s IH]; [reflexivity|].
  simpl. now destruct (ascii_dec c c).
Qed.

Lemma prefix_append (s t : string) : String.prefix s (s ++ t) = true.
Proof.
  induction s as [|c s IH]; simpl; [now destruct t|].
  now destruct (ascii_dec c c).
Qed.

(** The group of a match has at least one character, none of them a
    newline, and the literal follows it. *)
Lemma greedy_group_sound (s g : string) :
  greedy_group s = Some g ->
  g <> "" /\ no_newline g = true /\ String.prefix (g ++ required_literal) s = true.
Proof.
  revert g. induction s as [|c t IH]; intros g H; simpl in H; [discriminate|].
  destruct (Ascii.eqb c newline) eqn:Ec; [discriminate|].
  destruct (greedy_group t) as [g'|] eqn:Eg.
  - injection H as <-. destruct (IH g' eq_refl) as (_ & Hn & Hp).
    repeat split; [discriminate | simpl; now rewrite Ec |].
    simpl. now destruct (ascii_dec c c).
  - destruct (String.prefix required_literal t) eqn:Ep; [|discriminate].
    injection H as <-.
    repeat split; [discriminate | simpl; now rewrite Ec |].
    change ((String c "") ++ required_literal) with (String c required_literal).
    simpl. destruct (ascii_dec c c); [exact Ep | contradiction].
Qed.

(** A text made of a non-empty, newline-free [x] and the literal is matched
    from its start, and the group is [x]. *)
Lemma greedy_group_exact (x : string) :
  x <> "" -> no_newline x = true ->
  greedy_group (x ++ required_literal) = Some x.
Proof.
  induction x as [|c x IH]; intros Hne Hnl; [contradiction|].
  simpl in Hnl. apply andb_true_iff in Hnl as [Hc Hx].
  apply negb_true_iff in Hc.
  simpl. rewrite Hc.
  destruct x as [|d x'].
  - reflexivity.
  - rewrite IH; [reflexivity | discriminate | exact Hx].
Qed.

Lemma re_search_required_exact (x : string) :
  x <> "" -> no_newline x = true ->
  re_search_required (x ++ required_literal) = Some x.
Proof.
  intros Hne Hnl. destruct x as [|c x]; [contradiction|].
  pose proof (greedy_group_exact (String c x) Hne Hnl) as H.
  simpl in H |- *. now rewrite H.
Qed.

Lemma prefix_cons (c d : ascii) (s t : string) :
  String.prefix (String c s) (String d t) = true ->
  c = d /\ String.prefix s t = true.
Proof. simpl. destruct (ascii_dec c d); [now split | discriminate]. Qed.

Lemma prefix_split (p s : string) :
  String.prefix p s = true -> exists post, s = p ++ post.
Proof.
  revert s. induction p as [|c p IH]; intros s H; [now exists s|].
  destruct s as [|d t]; [discriminate|].
  apply prefix_cons in H as [-> H].
  destruct (IH t H) as [post ->]. now exists post.
Qed.

(** Where no group is found, no non-empty newline-free run at the start of
    the text is followed by the literal. *)
Lemma greedy_group_none (s : string) :
  greedy_group s = None ->
  forall g, g <> "" -> no_newline g = true ->
            String.prefix (g ++ required_literal) s = false.
Proof.
  induction s as [|c t IH]; intros H g Hne Hnl.
  - destruct g; [contradiction | reflexivity].
  - destruct g as [|c' g']; [contradiction|].
    destruct (String.prefix (String c' g' ++ required_literal) (String c t)) eqn:Ep;
      [|reflexivity].
    change (String c' g' ++ required_literal)
      with (String c' (g' ++ required_literal)) in Ep.
    apply prefix_cons in Ep as [-> Ep].
    simpl in Hnl. apply andb_true_iff in Hnl as [Hc Hg'].
    apply negb_true_iff in Hc.
    simpl in H. rewrite Hc in H.
    destruct (greedy_group t) eqn:Eg; [discriminate|].
    destruct (String.prefix required_literal t) eqn:Et; [discriminate|].
    destruct g' as [|d g''].
    + simpl in Ep. congruence.
    + rewrite (IH eq_refl (String d g'')) in Ep; [discriminate | discriminate | exact Hg'].
Qed.

(** The group is the longest such run: the quantifier is greedy. *)
Lemma greedy_group_longest (s : string) :
  forall g, greedy_group s = Some g ->
  forall g', g' <> "" -> no_newline g' = true ->
             String.prefix (g' ++ required_literal) s = true ->
             String.length g' <= String.length g.
Proof.
  induction s as [|c t IH]; intros g H g' Hne Hnl Hp; [discriminate|].
  destruct g' as [|c' g1']; [contradiction|].
  change (String c' g1' ++ required_literal)
    with (String c' (g1' ++ required_literal)) in Hp.
  apply prefix_cons in Hp as [-> Hp].
  simpl in Hnl. apply andb_true_iff in Hnl as [Hc Hg'].
  simpl in H. destruct (Ascii.eqb c newline); [discriminate|].
  destruct (greedy_group t) as [g1|] eqn:Eg.
  - injection H as <-. destruct g1' as [|d g2']; [simpl; lia|].
    simpl String.length at 1 2.
    specialize (IH g1 eq_refl (String d g2')).
    apply le_n_S, IH; [discriminate | exact Hg' | exact Hp].
  - destruct (String.prefix required_literal t); [|discriminate].
    injection H as <-. destruct g1' as [|d g2']; [simpl; lia|].
    rewrite (greedy_group_none t Eg (String d g2')) in Hp;
      [discriminate | discriminate | exact Hg'].
Qed.

(** A match of the search lies in the text: group, then literal. *)
Lemma re_search_required_sound (s g : string) :
  re_search_required s = Some g ->
  g <> "" /\ no_newline g = true /\ occurs_in (g ++ required_literal) s.
Proof.
  induction s as [|c t IH]; intros H; [discriminate|].
  unfold re_search_required in H. fold re_search_required in H.
  destruct (greedy_group (String c t)) as [g0|] eqn:Eg.
  - injection H as <-. destruct (greedy_group_sound _ _ Eg) as (Hne & Hnl & Hp).
    repeat split; [exact Hne | exact Hnl |].
    destruct (prefix_split _ _ Hp) as [post Hpost].
    exists "", post. exact Hpost.
  - destruct (IH H) as (Hne & Hnl & pre & post & ->).
    repeat split; [exact Hne | exact Hnl |].
    now exists (String c pre), post.
Qed.

(** Without a match, the pattern matches nowhere in the text. *)
Lemma re_search_required_none (s : string) :
  re_search_required s = None ->
  forall pre g post, g <> "" -> no_newline g = true ->
                     s <> pre ++ (g ++ required_literal) ++ post.
Proof.
  intros H pre. revert s H.
  induction pre as [|c pre IH]; intros s H g post Hne Hnl Hs.
  - destruct s as [|d t].
    + destruct g; [contradiction | discriminate].
    + unfold re_search_required in H. fold re_search_required in H.
      destruct (greedy_group (String d t)) eqn:Eg; [discriminate|].
      pose proof (greedy_group_none _ Eg g Hne Hnl) as Hp.
      rewrite Hs in Hp. cbn [append] in Hp.
      rewrite prefix_append in Hp. discriminate.
  - destruct s as [|d t]; [discriminate|].
    injection Hs as -> Ht.
    unfold re_search_required in H. fold re_search_required in H.
    destruct (greedy_group (String c t)); [discriminate|].
    exact (IH t H g post Hne Hnl Ht).
Qed.

(** ** Joining a path *)

Lemma text_items_keys (ks : list string) : text_items (map Key ks) = Ok ks.
Proof. induction ks as [|k ks IH]; simpl; [reflexivity | now rewrite IH]. Qed.

Lemma text_items_index (path : list path_segment) :
  (exists i, In (Index i) path) -> text_items path = Raise (Builtin TypeError).
Proof.
  intros [i Hi]. induction path as [|seg rest IH]; [contradiction|].
  destruct seg as [k|j]; [|reflexivity].
  destruct Hi as [Hi|Hi]; [discriminate|].
  simpl. now rewrite IH.
Qed.

(** Either every segment is a property name, or one is an index. *)
Lemma path_keys_or_index (path : list path_segment) :
  (exists ks, path = map Key ks) \/ (exists i, In (Index i) path).
Proof.
  induction path as [|seg rest IH]; [left; now exists []|].
  destruct seg as [k|i]; [|right; exists i; now left].
  destruct IH as [[ks ->]|[i Hi]].
  - left. now exists (k :: ks).
  - right. exists i. now right.
Qed.

Lemma comprehension_Forall2 {A B : Type} (f : A -> result B) (l : list A) :
  forall out, comprehension f l = Ok out -> Forall2 (fun x y => f x = Ok y) l out.
Proof.
  induction l as [|x xs IH]; intros out H; simpl in H.
  - injection H as <-. constructor.
  - destruct (f x) as [y|e] eqn:Ex; simpl in H; [|discriminate].
    destruct (comprehension f xs) as [ys|e] eqn:Exs; simpl in H; [|discriminate].
    injection H as <-. constructor; [exact Ex | now apply IH].
Qed.

(** ** Formatting one error *)

Section FormatFacts.
Variable re_space : ascii -> bool.
Variable json_dumps : json -> string.

Lemma format_required (error : ValidationError) (x : string) :
  re_search_required (_hack_error_message_fix re_space (message error)) = Some x ->
  _format_validation_error re_space json_dumps error
  = Ok ("Error: missing required property " ++ x ++ ".").
Proof.
  intros H. unfold _format_validation_error. now rewrite H.
Qed.

(** Off the required-property branch, a path of property names only. *)
Lemma format_generic_keys (error : ValidationError) (ks : list string) :
  re_search_required (_hack_error_message_fix re_space (message error)) = None ->
  absolute_path error = map Key ks ->
  _format_validation_error re_space json_dumps error
  = Ok ("Error: " ++ _hack_error_message_fix re_space (message error) ++ nl ++
        match ks with
        | [] => ""
        | _ :: _ => "Path: " ++ str_join "." ks ++ nl
        end ++
        "Value: " ++ json_dumps (instance error)).
Proof.
  intros Hs Hp. unfold _format_validation_error.
  rewrite Hs, Hp. destruct ks as [|k ks].
  - simpl. now rewrite !append_assoc.
  - unfold join_path. rewrite text_items_keys.
    cbn [map List.length Nat.ltb Nat.leb bind].
    now rewrite !append_assoc.
Qed.

(** Off the required-property branch, a path with an array index. *)
Lemma format_generic_index (error : ValidationError) :
  re_search_required (_hack_error_message_fix re_space (message error)) = None ->
  (exists i, In (Index i) (absolute_path error)) ->
  _format_validation_error re_space json_dumps error = Raise (Builtin TypeError).
Proof.
  intros Hs Hi. unfold _format_validation_error.
  rewrite Hs. unfold join_path. rewrite (text_items_index _ Hi).
  destruct Hi as [i Hi].
  destruct (absolute_path error); [contradiction | reflexivity].
Qed.
End FormatFacts.

Lemma sort_key_cleaned (re_space : ascii -> bool) (ve : ValidationError) :
  sort_key re_space ve = _hack_error_message_fix re_space (message ve).
Proof. reflexivity. Qed.

Example format_required_name :
  _format_validation_error ascii_space py_json_dumps err_required
  = Ok "Error: missing required property 'name'.".
Proof. reflexivity. Qed.

Example format_age :
  _format_validation_error ascii_space py_json_dumps err_age
  = Ok ("Error: 'old' is not of type 'integer'" ++ nl ++
        "Path: age" ++ nl ++
        "Value: " ++ String dquote ("old" ++ String dquote "")).
Proof. reflexivity. Qed.

Example validate_sorts :
  validate_json ascii_space py_json_dumps
    (fun _ _ => Ok [err_a; err_age; err_required]) two_ints two_strings_schema
  = Ok [ "Error: missing required property 'name'.";
         "Error: 'old' is not of type 'integer'" ++ nl ++ "Path: age" ++ nl ++
         "Value: " ++ String dquote ("old" ++ String dquote "");
         "Error: 1 is not of type 'string'" ++ nl ++ "Path: a" ++ nl ++ "Value: 1" ].
Proof. reflexivity. Qed.

(** ** What the normalisation leaves behind *)

Section NormalForm.
Variable re_space : ascii -> bool.
Hypothesis quote_no_space : re_space "'" = false.
Hypothesis u_no_space : re_space "u" = false.

Lemma opening_u : opening re_space "u" = false.
Proof. unfold opening. now rewrite u_no_space. Qed.

(** Behind a kept [u] that no quote followed, no quote follows in the
    output either. *)
Lemma strip_after_u_no_quote (t : string) :
  starts_with_quote t = false ->
  starts_with_quote (strip_markers_from re_space (Some "u"%char) t) = false.
Proof.
  destruct t as [|b r]; [reflexivity|].
  intros Hb. simpl. unfold marker_here. cbn [allowed_before].
  rewrite opening_u, andb_false_r. exact Hb.
Qed.

Lemma strip_markers_clean (n : nat) :
  forall (s : string) (prev : option ascii),
    String.length s <= n ->
    marker_after re_space prev (strip_markers_from re_space prev s) = false.
Proof.
  induction n as [|n IH]; intros s prev Hlen.
  - destruct s; [reflexivity | simpl in Hlen; lia].
  - destruct s as [|a t]; [reflexivity|].
    simpl in Hlen. simpl strip_markers_from.
    destruct (marker_here re_space prev a t) eqn:Hm.
    + unfold marker_here in Hm.
      apply andb_true_iff in Hm as [Hm Hprev].
      apply andb_true_iff in Hm as [Ha Ht].
      destruct t as [|b r]; [discriminate|].
      simpl in Ht. apply is_quote_true in Ht. subst b.
      apply is_u_true in Ha. subst a.
      rewrite (strip_after_quote_kept re_space r).
      cbn [marker_after marker_here is_u Ascii.eqb Bool.eqb andb orb].
      apply IH. simpl in Hlen. lia.
    + simpl. rewrite (IH t (Some a)) by lia. rewrite orb_false_r.
      unfold marker_here in Hm |- *.
      destruct (is_u a) eqn:Ha; [|reflexivity].
      destruct (allowed_before re_space prev); [|now rewrite andb_false_r].
      simpl in Hm |- *. rewrite andb_true_r in Hm |- *.
      apply is_u_true in Ha. subst a.
      now apply strip_after_u_no_quote.
Qed.

Lemma strip_markers_no_marker (msg : string) :
  has_marker re_space (strip_markers re_space msg) = false.
Proof. apply (strip_markers_clean (String.length msg)). lia. Qed.

Lemma hack_fix_idempotent (msg : string) :
  _hack_error_message_fix re_space (_hack_error_message_fix re_space msg)
  = _hack_error_message_fix re_space msg.
Proof.
  apply hack_fix_clean.
  rewrite (hack_fix_strip_markers re_space quote_no_space).
  apply strip_markers_no_marker.
Qed.
End NormalForm.

(** * The claims of the specification *)

(** C1 (as amended). For the errors [errs] the engine yields for an instance
    and a schema, [validate_json] formats them in the order of
    [sorted sort_key errs]: a rearrangement of [errs] that ascends by cleaned
    message text in code-point order, in which an error with a smaller
    cleaned message stands before one with a greater, and in which errors of
    equal cleaned message keep the order the engine gave them. The entries
    of a returned list are the formatted errors in that order. Two engines
    that list the errors of each cleaned message in the same order give the
    same result, however they interleave errors of different messages; so
    do two engines that yield the same errors with pairwise distinct
    cleaned messages, in any order. *)
Theorem validate_json_sorted_stable
  (re_space : ascii -> bool) (json_dumps : json -> string)
  (iter_errors : json -> json -> result (list ValidationError))
  (inst schema : json) (errs : list ValidationError) :
  iter_errors schema inst = Ok errs ->
  let cleaned := fun e => _hack_error_message_fix re_space (message e) in
  let ordered := sorted (sort_key re_space) errs in
  validate_json re_space json_dumps iter_errors inst schema
  = comprehension (_format_validation_error re_space json_dumps) ordered
  /\ Permutation ordered errs
  /\ StronglySorted (fun a b => (cleaned b <? cleaned a)%string = false) ordered
  /\ (forall i j a b,
         nth_error ordered i = Some a -> nth_error ordered j = Some b ->
         (cleaned a <? cleaned b)%string = true -> i < j)
  /\ (forall k,
         filter (fun e => String.eqb (cleaned e) k) ordered
         = filter (fun e => String.eqb (cleaned e) k) errs)
  /\ (forall out,
         validate_json re_space json_dumps iter_errors inst schema = Ok out ->
         Forall2 (fun e entry =>
                    _format_validation_error re_space json_dumps e = Ok entry)
                 ordered out)
  /\ (forall iter_errors' errs',
         iter_errors' schema inst = Ok errs' ->
         (forall k,
             filter (fun e => String.eqb (cleaned e) k) errs'
             = filter (fun e => String.eqb (cleaned e) k) errs) ->
         validate_json re_space json_dumps iter_errors' inst schema
         = validate_json re_space json_dumps iter_errors inst schema)
  /\ (forall iter_errors' errs',
         iter_errors' schema inst = Ok errs' ->
         Permutation errs errs' ->
         NoDup (map cleaned errs) ->
         validate_json re_space json_dumps iter_errors' inst schema
         = validate_json re_space json_dumps iter_errors inst schema).
Proof.
  intros Heng cleaned ordered.
  assert (Hrun : validate_json re_space json_dumps iter_errors inst schema
                 = comprehension (_format_validation_error re_space json_dumps) ordered).
  { unfold validate_json. now rewrite Heng. }
  split; [exact Hrun|].
  split; [apply sorted_perm|].
  split; [apply (sorted_sorted (sort_key re_space))|].
  split; [intros i j a b Hi Hj Hlt; exact (sorted_precedes _ _ _ _ _ _ Hi Hj Hlt)|].
  split; [intros k; apply (sorted_stable (sort_key re_space))|].
  split; [|split].
  - intros out Hout. rewrite Hrun in Hout. now apply comprehension_Forall2.
  - intros iter_errors' errs' Heng' Hsame.
    rewrite Hrun. unfold validate_json. rewrite Heng'. simpl.
    f_equal. apply (sorted_is_stable_sort (sort_key re_space)).
    + apply sorted_sorted.
    + intros k. rewrite (sorted_stable (sort_key re_space)). apply Hsame.
  - intros iter_errors' errs' Heng' Hperm Hnd.
    rewrite Hrun. unfold validate_json. rewrite Heng'. simpl.
    f_equal. symmetry. now apply sorted_order_independent.
Qed.

(** C2. [_format_validation_error] at the error the engine reports for the
    item of an array: the message is no required-property message and the
    path is [ports], [0]; the call raises [TypeError] instead of returning
    the entry with the line [Path: ports.0]. *)
Theorem format_array_item_raises
  (re_space : ascii -> bool) (json_dumps : json -> string) :
  re_search_required (_hack_error_message_fix re_space (message err_item)) = None
  /\ _format_validation_error re_space json_dumps err_item = Raise (Builtin TypeError).
Proof.
  assert (Hs : re_search_required
                 (_hack_error_message_fix re_space (message err_item)) = None).
  { rewrite hack_fix_clean by reflexivity. reflexivity. }
  split; [exact Hs|].
  apply format_generic_index; [exact Hs|].
  exists 0%Z. simpl. right. now left.
Qed.

(** C3 (as amended). When the cleaned message matches the
    required-property pattern with group [x], the entry is exactly
    [Error: missing required property x.], without a path or a value line.
    A cleaned message that consists of a non-empty, newline-free [x] and the
    words [ is a required property] matches with that [x]. The engine names
    a missing property [name] as ['name'], with or without the marker [u]
    before it; for such a message the entry is
    [Error: missing required property 'name'.], in single quotes, whatever
    the path and the value are. *)
Theorem format_required_property_exact
  (re_space : ascii -> bool) (json_dumps : json -> string) :
  (forall (error : ValidationError) (x : string),
      re_search_required (_hack_error_message_fix re_space (message error)) = Some x ->
      _format_validation_error re_space json_dumps error
      = Ok ("Error: missing required property " ++ x ++ "."))
  /\ (forall (error : ValidationError) (x : string),
         x <> "" -> no_newline x = true ->
         _hack_error_message_fix re_space (message error) = x ++ " is a required property" ->
         _format_validation_error re_space json_dumps error
         = Ok ("Error: missing required property " ++ x ++ "."))
  /\ (forall (path : list path_segment) (value : json),
         _format_validation_error re_space json_dumps
           (mkValidationError "'name' is a required property" path value)
         = Ok "Error: missing required property 'name'."
         /\ _format_validation_error re_space json_dumps
              (mkValidationError "u'name' is a required property" path value)
            = Ok "Error: missing required property 'name'.").
Proof.
  assert (Hclean : _hack_error_message_fix re_space "'name' is a required property"
                   = "'name' is a required property")
    by (apply hack_fix_clean; reflexivity).
  split; [|split].
  - intros error x. apply format_required.
  - intros error x Hne Hnl Hmsg. apply format_required.
    rewrite Hmsg. now apply re_search_required_exact.
  - intros path value. split.
    + apply (format_required re_space json_dumps _ "'name'").
      cbn [message]. rewrite Hclean. reflexivity.
    + apply (format_required re_space json_dumps _ "'name'").
      cbn [message].
      change (_hack_error_message_fix re_space "u'name' is a required property")
        with (_hack_error_message_fix re_space "'name' is a required property").
      rewrite Hclean. reflexivity.
Qed.

(** C4. Provided the quote is no whitespace character of the regex engine,
    [_hack_error_message_fix] is the leading strip followed by the interior
    strip, and what the two passes remove is exactly the markers of the
    specification: each [u] that stands immediately before a quote and
    either starts the text or follows a whitespace character, [[], [(] or
    [{]; every other character is kept in place. *)
Theorem hack_fix_removes_exactly_markers
  (re_space : ascii -> bool) (msg : string) :
  re_space "'"%char = false ->
  _hack_error_message_fix re_space msg = sub_interior re_space (sub_leading msg)
  /\ _hack_error_message_fix re_space msg = strip_markers re_space msg.
Proof.
  intros Hq. split; [reflexivity|]. now apply hack_fix_strip_markers.
Qed.


(** C6 (as amended). [read_file] raises [DCOSException] exactly when the
    path names no regular file or opening and reading it raises an
    exception that [except IOError] catches; the message of that failure
    contains the path. When the path names a regular file that is read, the
    contents are returned. Any other exception of opening or reading, such
    as a decoding error, leaves [read_file] as it is: neither as
    [DCOSException] nor as contents. *)
Theorem read_file_outcome
  (isfile : string -> bool) (open_read : string -> builtin_exc + string)
  (isinstance_IOError : builtin_exc -> bool) (path : string) :
  ((exists msg,
       read_file isfile open_read isinstance_IOError path = Raise (DCOSException msg))
   <-> (isfile path = false
        \/ exists e, open_read path = inl e /\ isinstance_IOError e = true))
  /\ (forall msg,
         read_file isfile open_read isinstance_IOError path = Raise (DCOSException msg) ->
         occurs_in path msg)
  /\ (forall contents,
         isfile path = true -> open_read path = inr contents ->
         read_file isfile open_read isinstance_IOError path = Ok contents)
  /\ (forall e,
         isfile path = true -> open_read path = inl e ->
         isinstance_IOError e = false ->
         read_file isfile open_read isinstance_IOError path = Raise (Builtin e)).
Proof.
  unfold read_file. split; [|split; [|split]].
  - split.
    + intros [msg H]. destruct (isfile path); [|now left].
      right. simpl in H. destruct (open_read path) as [e|]; [|discriminate].
      exists e. split; [reflexivity|].
      destruct (isinstance_IOError e); [reflexivity | discriminate].
    + intros [H|(e & He & Hio)].
      * rewrite H. simpl. eauto.
      * destruct (isfile path); simpl; [rewrite He, Hio|]; eauto.
  - intros msg H. destruct (isfile path); simpl in H.
    + destruct (open_read path) as [e|]; [|discriminate].
      destruct (isinstance_IOError e); [|discriminate].
      injection H as <-. exists "Unable to open file [", "]". reflexivity.
    + injection H as <-. exists "Path [", "] is not a file". reflexivity.
  - intros contents Hf Hr. now rewrite Hf, Hr.
  - intros e Hf Hr Hio. now rewrite Hf, Hr, Hio.
Qed.

(** C7. [list_to_err] joins the texts with the separator of two newlines:
    nothing for the empty list, the text itself for one text, and otherwise
    the first text, the separator and the join of the others; the three
    texts [A], [B], [C] give [A], two newlines, [B], two newlines, [C]. *)
Theorem list_to_err_joins :
  let sep := String newline (String newline "") in
  String.length sep = 2
  /\ list_to_err [] = ""
  /\ (forall a, list_to_err [a] = a)
  /\ (forall a b rest, list_to_err (a :: b :: rest) = a ++ sep ++ list_to_err (b :: rest))
  /\ list_to_err ["A"; "B"; "C"] = "A" ++ sep ++ "B" ++ sep ++ "C"
  /\ (forall errs,
         String.length (list_to_err errs)
         = list_sum (map String.length errs) + 2 * (List.length errs - 1)).
Proof.
  cbn zeta. repeat split.
  intros errs. unfold list_to_err.
  induction errs as [|a [|b rest] IH].
  - reflexivity.
  - simpl. lia.
  - change (str_join (nl ++ nl) (a :: b :: rest))
      with (a ++ (nl ++ nl) ++ str_join (nl ++ nl) (b :: rest)).
    rewrite !length_append, IH. simpl. lia.
Qed.

(** C8. A message without artifact marker, that is without a [u]
    immediately before a quote at the start of the text or behind a
    whitespace character, [[], [(] or [{], is returned unchanged. Where
    neither the quote nor [u] is a whitespace character of the regex engine,
    every normalised message is such a message, so that normalising twice
    is normalising once. *)
Theorem hack_fix_identity_on_clean
  (re_space : ascii -> bool) (msg : string) :
  (has_marker re_space msg = false ->
   _hack_error_message_fix re_space msg = msg)
  /\ (re_space "'"%char = false -> re_space "u"%char = false ->
      has_marker re_space (_hack_error_message_fix re_space msg) = false
      /\ _hack_error_message_fix re_space (_hack_error_message_fix re_space msg)
         = _hack_error_message_fix re_space msg).
Proof.
  split; [apply hack_fix_clean|].
  intros Hq Hu. split; [|now apply hack_fix_idempotent].
  rewrite (hack_fix_strip_markers re_space Hq).
  now apply strip_markers_no_marker.
Qed.

(** C9. [ServerRequest._req] as the module has it: the names [urlparse],
    [config], [log] and [MISSING_SERVER] are not bound, so every call
    raises [NameError] when the argument of the request is evaluated (or
    [AttributeError] before that, when [requests] has no such method). No
    request is sent, no body is decoded, nothing is logged and neither
    handler applies: the call never returns [None], whatever the server
    would answer. [load_jsons] on text that is not JSON raises
    [DCOSException]. *)
Theorem req_raises_before_request
  (requests_has : string -> bool)
  (config_current_url config_current_host : string)
  (urljoin : string -> string -> string)
  (missing_server : string -> string)
  (requests_call : string -> string -> kwargs -> http_outcome)
  (json_loads : string -> result json)
  (method : string) (url : option string) (kw : kwargs) :
  ServerRequest._req requests_has config_current_url config_current_host urljoin
    missing_server requests_call json_loads method url kw
  = ([], Raise (Builtin (OtherError (if requests_has method
                                     then "NameError" else "AttributeError"))))
  /\ (forall body e,
         json_loads body = Raise e ->
         snd (load_jsons json_loads body) = Raise (DCOSException "Error loading JSON.")).
Proof.
  split.
  - unfold ServerRequest._req, ServerRequest.try_body.
    destruct (requests_has method); reflexivity.
  - intros body e H. unfold load_jsons. now rewrite H.
Qed.

(** C10. [_format_validation_error] returns an entry only for errors whose
    path segments are all text. Off the required-property branch, an error
    whose path holds an array index makes the join of the path, and with it
    the call, raise [TypeError]; an error whose path consists of property
    names gets its entry, with the [Path:] line of the names joined by a dot
    when there is at least one name. *)
Theorem format_defined_only_on_text_paths
  (re_space : ascii -> bool) (json_dumps : json -> string)
  (error : ValidationError) :
  re_search_required (_hack_error_message_fix re_space (message error)) = None ->
  ((exists i, In (Index i) (absolute_path error)) ->
   join_path "." (absolute_path error) = Raise (Builtin TypeError)
   /\ _format_validation_error re_space json_dumps error = Raise (Builtin TypeError))
  /\ (forall ks, absolute_path error = map Key ks ->
        join_path "." (absolute_path error) = Ok (str_join "." ks)
        /\ _format_validation_error re_space json_dumps error
           = Ok ("Error: " ++ _hack_error_message_fix re_space (message error) ++ nl ++
                 match ks with
                 | [] => ""
                 | _ :: _ => "Path: " ++ str_join "." ks ++ nl
                 end ++
                 "Value: " ++ json_dumps (instance error)))
  /\ ((exists entry, _format_validation_error re_space json_dumps error = Ok entry)
      <-> (exists ks, absolute_path error = map Key ks)).
Proof.
  intros Hs. split; [|split].
  - intros Hi. split.
    + unfold join_path. now rewrite (text_items_index _ Hi).
    + now apply format_generic_index.
  - intros ks Hp. split.
    + unfold join_path. now rewrite Hp, text_items_keys.
    + now apply format_generic_keys.
  - split.
    + intros [entry He].
      destruct (path_keys_or_index (absolute_path error)) as [Hk|Hi]; [exact Hk|].
      rewrite (format_generic_index re_space json_dumps error Hs Hi) in He.
      discriminate.
    + intros [ks Hp]. rewrite (format_generic_keys re_space json_dumps error ks Hs Hp).
      eauto.
Qed.

(** * The claims at concrete inputs *)

(** C1: two errors of one cleaned message come out in the order the engine
    gave them, so the two orders of the engine give two different reports. *)
Lemma validate_json_depends_on_engine_order :
  Permutation [err_a; err_b] [err_b; err_a]
  /\ sort_key ascii_space err_a = sort_key ascii_space err_b
  /\ validate_json ascii_space py_json_dumps
       (fun _ _ => Ok [err_a; err_b]) two_ints two_strings_schema
     = Ok [ "Error: 1 is not of type 'string'" ++ nl ++ "Path: a" ++ nl ++ "Value: 1";
            "Error: 1 is not of type 'string'" ++ nl ++ "Path: b" ++ nl ++ "Value: 1" ]
  /\ validate_json ascii_space py_json_dumps
       (fun _ _ => Ok [err_b; err_a]) two_ints two_strings_schema
     = Ok [ "Error: 1 is not of type 'string'" ++ nl ++ "Path: b" ++ nl ++ "Value: 1";
            "Error: 1 is not of type 'string'" ++ nl ++ "Path: a" ++ nl ++ "Value: 1" ]
  /\ validate_json ascii_space py_json_dumps
       (fun _ _ => Ok [err_a; err_b]) two_ints two_strings_schema
     <> validate_json ascii_space py_json_dumps
          (fun _ _ => Ok [err_b; err_a]) two_ints two_strings_schema.
Proof.
  split; [apply perm_swap|].
  split; [reflexivity|].
  split; [reflexivity|].
  split; [reflexivity|].
  vm_compute. discriminate.
Qed.

Lemma validate_json_sorted_stable_witness :
  validate_json ascii_space py_json_dumps
    (fun _ _ => Ok [err_required; err_age]) two_ints two_strings_schema
  = validate_json ascii_space py_json_dumps
      (fun _ _ => Ok [err_age; err_required]) two_ints two_strings_schema.
Proof.
  refine (proj2 (proj2 (proj2 (proj2 (proj2 (proj2 (proj2
            (validate_json_sorted_stable ascii_space py_json_dumps
               (fun _ _ => Ok [err_age; err_required])
               two_ints two_strings_schema [err_age; err_required] eq_refl)))))))
            (fun _ _ => Ok [err_required; err_age]) [err_required; err_age]
            eq_refl _ _).
  - apply perm_swap.
  - repeat constructor; simpl; intuition discriminate.
Defined.

Lemma format_required_property_exact_witness :
  _format_validation_error ascii_space py_json_dumps err_required
  = Ok ("Error: missing required property " ++ "'name'" ++ ".").
Proof.
  refine (proj1 (proj2 (format_required_property_exact ascii_space py_json_dumps))
            err_required "'name'" _ eq_refl eq_refl).
  discriminate.
Defined.

Lemma hack_fix_removes_exactly_markers_witness :
  _hack_error_message_fix ascii_space "[u'a', u'b'] is not one of (u'c', {u'd': 1})"
  = strip_markers ascii_space "[u'a', u'b'] is not one of (u'c', {u'd': 1})".
Proof.
  exact (proj2 (hack_fix_removes_exactly_markers ascii_space
                  "[u'a', u'b'] is not one of (u'c', {u'd': 1})" eq_refl)).
Defined.



Lemma read_file_outcome_witness :
  read_file (fun p => String.eqb p "/etc/dcos.toml") (fun _ => inr "[core]")
    py_isinstance_IOError "/etc/dcos.toml"
  = Ok "[core]".
Proof.
  exact (proj1 (proj2 (proj2 (read_file_outcome
                                (fun p => String.eqb p "/etc/dcos.toml")
                                (fun _ => inr "[core]") py_isinstance_IOError
                                "/etc/dcos.toml")))
           "[core]" eq_refl eq_refl).
Defined.

(** C6: a regular file whose contents cannot be decoded cannot be read,
    and [read_file] raises the decoding error itself: no [DCOSException]. *)
Lemma read_file_decode_error_untyped :
  let isfile := fun p => String.eqb p "/etc/dcos.toml" in
  let open_read :=
    fun _ : string => @inl builtin_exc string (OtherError "UnicodeDecodeError") in
  isfile "/etc/dcos.toml" = true
  /\ read_file isfile open_read py_isinstance_IOError "/etc/dcos.toml"
     = Raise (Builtin (OtherError "UnicodeDecodeError"))
  /\ ~ (exists msg,
           read_file isfile open_read py_isinstance_IOError "/etc/dcos.toml"
           = Raise (DCOSException msg))
  /\ ~ (exists contents,
           read_file isfile open_read py_isinstance_IOError "/etc/dcos.toml"
           = Ok contents).
Proof.
  cbn zeta. split; [reflexivity|]. split; [reflexivity|].
  split; intros [x H]; discriminate H.
Qed.

(** C3: for the message the engine writes for a missing property [name],
    the entry has the name in single quotes; it is not the entry with the
    name in double quotes. *)
Lemma format_required_name_single_quotes :
  _format_validation_error ascii_space py_json_dumps err_required
  = Ok "Error: missing required property 'name'."
  /\ _format_validation_error ascii_space py_json_dumps err_required
     <> Ok ("Error: missing required property " ++
            String dquote ("name" ++ String dquote ".")).
Proof. split; [reflexivity | discriminate]. Qed.

Lemma hack_fix_identity_on_clean_witness :
  _hack_error_message_fix ascii_space "'old' is not of type 'integer'"
  = "'old' is not of type 'integer'"
  /\ _hack_error_message_fix ascii_space
       (_hack_error_message_fix ascii_space "u'old' is not of type u'integer'")
     = _hack_error_message_fix ascii_space "u'old' is not of type u'integer'".
Proof.
  split.
  - exact (proj1 (hack_fix_identity_on_clean ascii_space
                    "'old' is not of type 'integer'") eq_refl).
  - exact (proj2 (proj2 (hack_fix_identity_on_clean ascii_space
                           "u'old' is not of type u'integer'") eq_refl eq_refl)).
Defined.

Lemma req_raises_before_request_witness :
  snd (load_jsons literal_json_loads "{") = Raise (DCOSException "Error loading JSON.").
Proof.
  exact (proj2 (req_raises_before_request (fun _ => true)
                  "http://localhost:8080" "localhost"
                  (fun base path => base ++ path) (fun host => "no server at " ++ host)
                  (fun _ _ _ => Response "{") literal_json_loads "get" (Some "app")
                  (mkKwargs None []))
           "{" (Builtin ValueError) eq_refl).
Defined.

Lemma format_defined_only_on_text_paths_witness :
  _format_validation_error ascii_space py_json_dumps err_item = Raise (Builtin TypeError)
  /\ _format_validation_error ascii_space py_json_dumps err_age
     = Ok ("Error: 'old' is not of type 'integer'" ++ nl ++
           "Path: age" ++ nl ++
           "Value: " ++ String dquote ("old" ++ String dquote "")).
Proof.
  split.
  - refine (proj2 (proj1 (format_defined_only_on_text_paths ascii_space py_json_dumps
                            err_item eq_refl) _)).
    exists 0%Z. simpl. right. now left.
  - exact (proj2 (proj1 (proj2 (format_defined_only_on_text_paths ascii_space
                                  py_json_dumps err_age eq_refl))
                    ["age"] eq_refl)).
Defined.

(** * Further properties of the module *)

(** ** Normalisation *)

Lemma sub_leading_drop_u (msg : string) : drop_u (sub_leading msg) = drop_u msg.
Proof.
  destruct msg as [|a [|b rest]]; try reflexivity.
  unfold sub_leading. destruct (is_u a) eqn:Ha; [|reflexivity].
  destruct (is_quote b) eqn:Hb; [|reflexivity].
  apply is_quote_true in Hb. subst b. simpl. now rewrite Ha.
Qed.

Lemma sub_leading_length (msg : string) :
  String.length (sub_leading msg) <= String.length msg.
Proof.
  destruct msg as [|a [|b rest]]; try (simpl; lia).
  unfold sub_leading. destruct (is_u a && is_quote b); simpl; lia.
Qed.

Lemma sub_interior_only_u (re_space : ascii -> bool) (n : nat) :
  forall s, String.length s <= n ->
            drop_u (sub_interior re_space s) = drop_u s
            /\ String.length (sub_interior re_space s) <= String.length s.
Proof.
  induction n as [|n IH]; intros s Hlen.
  - destruct s; [split; [reflexivity | simpl; lia] | simpl in Hlen; lia].
  - destruct s as [|c [|a [|b rest]]].
    + split; [reflexivity | simpl; lia].
    + split; [reflexivity | simpl; lia].
    + split; [reflexivity | simpl; lia].
    + simpl in Hlen.
      change (sub_interior re_space (String c (String a (String b rest))))
        with (if opening re_space c && is_u a && is_quote b
              then String c (String "'" (sub_interior re_space rest))
              else String c (sub_interior re_space (String a (String b rest)))).
      destruct (opening re_space c && is_u a && is_quote b) eqn:Hm.
      * apply andb_true_iff in Hm as [Hm Hb]. apply andb_true_iff in Hm as [_ Ha].
        apply is_quote_true in Hb. subst b.
        destruct (IH rest) as [Hd Hl]; [lia|].
        split.
        -- cbn [drop_u]. rewrite Ha. cbn [is_u Ascii.eqb Bool.eqb]. now rewrite Hd.
        -- simpl. lia.
      * destruct (IH (String a (String b rest))) as [Hd Hl]; [simpl; lia|].
        split.
        -- cbn [drop_u]. cbn [drop_u] in Hd. now rewrite Hd.
        -- simpl in Hl |- *. lia.
Qed.

Section MarkerCount.
Variable re_space : ascii -> bool.

Lemma strip_markers_length (s : string) :
  forall prev,
    String.length (strip_markers_from re_space prev s)
    + count_markers_from re_space prev s
    = String.length s.
Proof.
  induction s as [|c t IH]; intros prev; [reflexivity|].
  simpl. destruct (marker_here re_space prev c t); simpl; rewrite <- (IH (Some c)); lia.
Qed.

Lemma count_markers_zero (s : string) :
  forall prev,
    count_markers_from re_space prev s = 0 <-> marker_after re_space prev s = false.
Proof.
  induction s as [|c t IH]; intros prev; [simpl; tauto|].
  simpl. destruct (marker_here re_space prev c t); simpl.
  - split; [lia | discriminate].
  - apply IH.
Qed.
End MarkerCount.

(** X1. The normalisation deletes characters [u] and nothing else: without
    their [u]s the message and its normal form are the same text, and the
    normal form is never longer than the message. *)
Theorem hack_fix_deletes_only_u (re_space : ascii -> bool) (msg : string) :
  drop_u (_hack_error_message_fix re_space msg) = drop_u msg
  /\ String.length (_hack_error_message_fix re_space msg) <= String.length msg.
Proof.
  unfold _hack_error_message_fix.
  destruct (sub_interior_only_u re_space (String.length (sub_leading msg))
              (sub_leading msg) (le_n _)) as [Hd Hl].
  split.
  - now rewrite Hd, sub_leading_drop_u.
  - pose proof (sub_leading_length msg). lia.
Qed.

(** X2. Where the quote is no whitespace character, the normalisation
    shortens a message by exactly the number of its markers, and it changes
    the message exactly when the message has a marker. *)
Theorem hack_fix_shortens_by_markers (re_space : ascii -> bool) (msg : string) :
  re_space "'"%char = false ->
  String.length (_hack_error_message_fix re_space msg) + count_markers re_space msg
  = String.length msg
  /\ (_hack_error_message_fix re_space msg = msg <-> has_marker re_space msg = false).
Proof.
  intros Hq.
  assert (Hlen : String.length (_hack_error_message_fix re_space msg)
                 + count_markers re_space msg = String.length msg).
  { rewrite (hack_fix_strip_markers re_space Hq). apply strip_markers_length. }
  split; [exact Hlen|]. split.
  - intros Heq. rewrite Heq in Hlen.
    apply (count_markers_zero re_space msg None). unfold count_markers in Hlen. lia.
  - apply hack_fix_clean.
Qed.

Lemma hack_fix_shortens_by_markers_witness :
  String.length (_hack_error_message_fix ascii_space "[u'a', u'b'] is too long")
  + count_markers ascii_space "[u'a', u'b'] is too long"
  = String.length "[u'a', u'b'] is too long".
Proof.
  exact (proj1 (hack_fix_shortens_by_markers ascii_space
                  "[u'a', u'b'] is too long" eq_refl)).
Defined.

(** ** The required-property pattern in a message *)

Lemma no_newline_last (g : string) :
  g <> "" -> no_newline g = true ->
  exists g0 c, g = g0 ++ String c "" /\ c <> newline.
Proof.
  induction g as [|c g IH]; intros Hne Hnl; [contradiction|].
  simpl in Hnl. apply andb_true_iff in Hnl as [Hc Hg].
  destruct g as [|d g'].
  - exists "", c. split; [reflexivity|].
    apply negb_true_iff in Hc. intros ->. now rewrite Ascii.eqb_refl in Hc.
  - destruct IH as (g0 & c' & Heq & Hc'); [discriminate | exact Hg |].
    exists (String c g0), c'. split; [|exact Hc'].
    cbn [append]. now rewrite <- Heq.
Qed.

Lemma no_newline_single (c : ascii) : c <> newline -> no_newline (String c "") = true.
Proof.
  intros Hc. simpl. rewrite andb_true_r. apply negb_true_iff.
  destruct (Ascii.eqb c newline) eqn:E; [|reflexivity].
  apply Ascii.eqb_eq in E. contradiction.
Qed.

(** X3. The required-property branch is taken exactly when the cleaned
    message holds, somewhere, a character other than the newline directly
    before the words [ is a required property]. The entry then quotes a
    non-empty, newline-free piece of the message that those words follow. *)
Theorem required_branch_taken_iff
  (re_space : ascii -> bool) (json_dumps : json -> string)
  (error : ValidationError) :
  let cleaned := _hack_error_message_fix re_space (message error) in
  ((exists pre c post,
       c <> newline /\ cleaned = pre ++ String c (required_literal ++ post))
   <-> (exists x, re_search_required cleaned = Some x))
  /\ (forall x,
         re_search_required cleaned = Some x ->
         x <> "" /\ no_newline x = true
         /\ occurs_in (x ++ required_literal) cleaned
         /\ _format_validation_error re_space json_dumps error
            = Ok ("Error: missing required property " ++ x ++ ".")).
Proof.
  intros cleaned. split.
  - split.
    + intros (pre & c & post & Hc & Hs).
      destruct (re_search_required cleaned) as [x|] eqn:E; [now exists x|].
      exfalso.
      apply (re_search_required_none cleaned E pre (String c "") post);
        [discriminate | now apply no_newline_single | exact Hs].
    + intros [x Hx].
      destruct (re_search_required_sound _ _ Hx) as (Hne & Hnl & pre & post & Hs).
      destruct (no_newline_last x Hne Hnl) as (g0 & c & Hx0 & Hc).
      exists (pre ++ g0), c, post. split; [exact Hc|].
      rewrite Hs, Hx0, !append_assoc. reflexivity.
  - intros x Hx.
    destruct (re_search_required_sound _ _ Hx) as (Hne & Hnl & Hocc).
    repeat split; try assumption. now apply format_required.
Qed.

Lemma required_branch_taken_iff_witness :
  exists x,
    re_search_required
      (_hack_error_message_fix ascii_space (message err_required)) = Some x.
Proof.
  refine (proj1 (proj1 (required_branch_taken_iff ascii_space py_json_dumps
                          err_required)) _).
  exists "'name", "'"%char, "". split; [discriminate | reflexivity].
Defined.

(** ** Reports *)

Lemma forallb_is_key_keys (path : list path_segment) :
  forallb is_key path = true <-> exists ks, path = map Key ks.
Proof.
  induction path as [|seg rest IH].
  - split; [now exists [] | reflexivity].
  - destruct seg as [k|i]; simpl.
    + rewrite IH. split.
      * intros [ks ->]. now exists (k :: ks).
      * intros [[|k' ks] H]; [discriminate|]. injection H as _ ->. now exists ks.
    + split; [discriminate|]. intros [[|k ks] H]; discriminate.
Qed.

Lemma forallb_is_key_index (path : list path_segment) :
  forallb is_key path = false -> exists i, In (Index i) path.
Proof.
  intros H. destruct (path_keys_or_index path) as [Hk|Hi]; [|exact Hi].
  apply forallb_is_key_keys in Hk. congruence.
Qed.

Section ReportFacts.
Variable re_space : ascii -> bool.
Variable json_dumps : json -> string.

Lemma format_formattable (error : ValidationError) :
  formattable re_space error = true ->
  exists entry, _format_validation_error re_space json_dumps error = Ok entry.
Proof.
  unfold formattable. intros H.
  destruct (re_search_required (_hack_error_message_fix re_space (message error)))
    as [x|] eqn:E.
  - rewrite (format_required re_space json_dumps error x E). eauto.
  - apply forallb_is_key_keys in H as [ks Hks].
    rewrite (format_generic_keys re_space json_dumps error ks E Hks). eauto.
Qed.

Lemma format_not_formattable (error : ValidationError) :
  formattable re_space error = false ->
  _format_validation_error re_space json_dumps error = Raise (Builtin TypeError).
Proof.
  unfold formattable. intros H.
  destruct (re_search_required (_hack_error_message_fix re_space (message error)))
    as [x|] eqn:E; [discriminate|].
  apply format_generic_index; [exact E | now apply forallb_is_key_index].
Qed.

Lemma format_raises_only_TypeError (error : ValidationError) (e : exception) :
  _format_validation_error re_space json_dumps error = Raise e ->
  e = Builtin TypeError /\ formattable re_space error = false.
Proof.
  intros H. destruct (formattable re_space error) eqn:F.
  - destruct (format_formattable error F) as [entry He]. congruence.
  - rewrite (format_not_formattable error F) in H. injection H as <-. now split.
Qed.

Lemma format_starts_with_Error (error : ValidationError) (entry : string) :
  _format_validation_error re_space json_dumps error = Ok entry ->
  String.prefix "Error: " entry = true.
Proof.
  unfold _format_validation_error.
  destruct (re_search_required _) as [x|].
  - intros H. injection H as <-. exact (prefix_append "Error: " _).
  - destruct (0 <? List.length (absolute_path error))%nat.
    + destruct (join_path "." (absolute_path error)) as [joined|e]; simpl;
        intros H; [|discriminate].
      injection H as <-. exact (prefix_append "Error: " _).
    + simpl. intros H. injection H as <-. exact (prefix_append "Error: " _).
Qed.
End ReportFacts.

Lemma comprehension_length {A B : Type} (f : A -> result B) (l : list A) :
  forall out, comprehension f l = Ok out -> List.length out = List.length l.
Proof.
  intros out H. apply comprehension_Forall2 in H.
  induction H; simpl; congruence.
Qed.

Lemma comprehension_all_ok {A B : Type} (f : A -> result B) (l : list A) :
  Forall (fun x => exists y, f x = Ok y) l ->
  exists out, comprehension f l = Ok out.
Proof.
  induction 1 as [|x xs [y Hy] _ [ys Hys]]; simpl; [now exists []|].
  rewrite Hy, Hys. simpl. now exists (y :: ys).
Qed.

Lemma comprehension_raises {A B : Type} (f : A -> result B) (l : list A) (e : exception) :
  comprehension f l = Raise e -> Exists (fun x => f x = Raise e) l.
Proof.
  induction l as [|x xs IH]; simpl; [discriminate|].
  destruct (f x) as [y|e'] eqn:Ex; simpl.
  - destruct (comprehension f xs) as [ys|e'']; simpl; [discriminate|].
    intros H. injection H as ->. right. now apply IH.
  - intros H. injection H as ->. now left.
Qed.

(** The entries of a permuted list are the permuted entries. *)
Lemma comprehension_perm {A B : Type} (f : A -> result B) (l l' : list A) :
  Permutation l l' ->
  forall out, comprehension f l = Ok out ->
              exists out', comprehension f l' = Ok out' /\ Permutation out out'.
Proof.
  induction 1 as [|x l l' Hp IH|x y l|l l' l'' Hp1 IH1 Hp2 IH2]; intros out H.
  - exists out. now split.
  - simpl in H |- *. destruct (f x) as [a|]; simpl in *; [|discriminate].
    destruct (comprehension f l) as [as_|]; simpl in *; [|discriminate].
    injection H as <-. destruct (IH as_ eq_refl) as (out' & -> & Hperm).
    simpl. exists (a :: out'). split; [reflexivity | now constructor].
  - simpl in H |- *.
    destruct (f y) as [b|]; simpl in *; [|discriminate].
    destruct (f x) as [a|]; simpl in *; [|discriminate].
    destruct (comprehension f l) as [rest|]; simpl in *; [|discriminate].
    injection H as <-. exists (a :: b :: rest). split; [reflexivity | apply perm_swap].
  - destruct (IH1 out H) as (out' & H' & P1).
    destruct (IH2 out' H') as (out'' & H'' & P2).
    exists out''. split; [exact H'' | now transitivity out'].
Qed.

Lemma sorted_idempotent {A : Type} (key : A -> string) (l : list A) :
  sorted key (sorted key l) = sorted key l.
Proof.
  symmetry. apply sorted_is_stable_sort; [apply sorted_sorted | reflexivity].
Qed.

Lemma forallb_perm {A : Type} (p : A -> bool) (l l' : list A) :
  Permutation l l' -> forallb p l = forallb p l'.
Proof.
  induction 1 as [|x l l' _ IH|x y l|l l' l'' _ IH1 _ IH2]; simpl.
  - reflexivity.
  - now rewrite IH.
  - destruct (p x), (p y); reflexivity.
  - congruence.
Qed.

Section ReportOutcome.
Variable re_space : ascii -> bool.
Variable json_dumps : json -> string.

(** The report of a list of errors: every error formattable and a list of
    entries, or an error that is not and [TypeError]. *)
Lemma report_outcome (errs : list ValidationError) :
  if forallb (formattable re_space) errs
  then exists out,
      comprehension (_format_validation_error re_space json_dumps) errs = Ok out
  else comprehension (_format_validation_error re_space json_dumps) errs
       = Raise (Builtin TypeError).
Proof.
  destruct (forallb (formattable re_space) errs) eqn:F.
  - apply comprehension_all_ok. rewrite forallb_forall in F.
    apply Forall_forall. intros e He. apply format_formattable. now apply F.
  - destruct (comprehension (_format_validation_error re_space json_dumps) errs)
      as [out|e] eqn:E.
    + exfalso. apply comprehension_Forall2 in E.
      assert (Hall : forallb (formattable re_space) errs = true).
      { clear F. induction E as [|x y xs ys Hxy _ IH]; [reflexivity|].
        simpl. rewrite IH, andb_true_r.
        destruct (formattable re_space x) eqn:Fx; [reflexivity|].
        rewrite (format_not_formattable re_space json_dumps x Fx) in Hxy.
        discriminate. }
      congruence.
    + apply comprehension_raises in E. apply Exists_exists in E as (x & _ & Hx).
      apply format_raises_only_TypeError in Hx as [-> _]. reflexivity.
Qed.
End ReportOutcome.

(** X4. [validate_json] returns a list exactly when the engine yields its
    errors and each of them is formattable, that is has a required-property
    message or a path of property names only; when one error is not, the
    call raises [TypeError], and an exception of the engine is passed on. *)
Theorem validate_json_outcome
  (re_space : ascii -> bool) (json_dumps : json -> string)
  (iter_errors : json -> json -> result (list ValidationError))
  (inst schema : json) :
  match iter_errors schema inst with
  | Raise e => validate_json re_space json_dumps iter_errors inst schema = Raise e
  | Ok errs =>
      if forallb (formattable re_space) errs
      then exists out,
          validate_json re_space json_dumps iter_errors inst schema = Ok out
      else validate_json re_space json_dumps iter_errors inst schema
           = Raise (Builtin TypeError)
  end.
Proof.
  unfold validate_json. destruct (iter_errors schema inst) as [errs|e]; [|reflexivity].
  simpl.
  rewrite (forallb_perm (formattable re_space) errs (sorted (sort_key re_space) errs))
    by (symmetry; apply sorted_perm).
  apply report_outcome.
Qed.

(** X5. A returned report has one entry for each error of the engine: it is
    empty exactly when the engine found no error. *)
Theorem validate_json_one_entry_per_error
  (re_space : ascii -> bool) (json_dumps : json -> string)
  (iter_errors : json -> json -> result (list ValidationError))
  (inst schema : json) (errs : list ValidationError) (out : list string) :
  iter_errors schema inst = Ok errs ->
  validate_json re_space json_dumps iter_errors inst schema = Ok out ->
  List.length out = List.length errs /\ (out = [] <-> errs = []).
Proof.
  intros Heng Hout. unfold validate_json in Hout. rewrite Heng in Hout. simpl in Hout.
  apply comprehension_length in Hout.
  rewrite (Permutation_length (sorted_perm (sort_key re_space) errs)) in Hout.
  split; [exact Hout|].
  destruct out, errs; simpl in Hout; split; intros H; try reflexivity; try discriminate.
Qed.

Lemma validate_json_one_entry_per_error_witness :
  List.length ["Error: missing required property 'name'."]
  = List.length [err_required].
Proof.
  exact (proj1 (validate_json_one_entry_per_error ascii_space py_json_dumps
                  (fun _ _ => Ok [err_required]) two_ints two_strings_schema
                  [err_required] ["Error: missing required property 'name'."]
                  eq_refl eq_refl)).
Defined.

(** X6. Every entry of a report starts with [Error: ]; so the report joined
    by [list_to_err] is the empty text exactly when the engine found no
    error. *)
Theorem validate_json_report_text
  (re_space : ascii -> bool) (json_dumps : json -> string)
  (iter_errors : json -> json -> result (list ValidationError))
  (inst schema : json) (errs : list ValidationError) (out : list string) :
  iter_errors schema inst = Ok errs ->
  validate_json re_space json_dumps iter_errors inst schema = Ok out ->
  Forall (fun entry => String.prefix "Error: " entry = true) out
  /\ (list_to_err out = "" <-> errs = []).
Proof.
  intros Heng Hout. unfold validate_json in Hout. rewrite Heng in Hout. simpl in Hout.
  pose proof (comprehension_length _ _ _ Hout) as Hlen.
  rewrite (Permutation_length (sorted_perm (sort_key re_space) errs)) in Hlen.
  apply comprehension_Forall2 in Hout.
  assert (Hpre : Forall (fun entry => String.prefix "Error: " entry = true) out).
  { clear Hlen. induction Hout as [|e entry es entries He _ IH]; constructor.
    - exact (format_starts_with_Error re_space json_dumps e entry He).
    - exact IH. }
  split; [exact Hpre|]. split.
  - intros Hjoin. destruct errs as [|e errs]; [reflexivity|].
    destruct out as [|entry rest]; [discriminate|].
    inversion Hpre as [|? ? Hentry _]; subst.
    destruct (prefix_split _ _ Hentry) as [tail ->].
    unfold list_to_err in Hjoin. destruct rest; discriminate.
  - intros ->. destruct out; [reflexivity | discriminate].
Qed.

Lemma validate_json_report_text_witness :
  list_to_err ["Error: missing required property 'name'."] = ""
  <-> [err_required] = [].
Proof.
  exact (proj2 (validate_json_report_text ascii_space py_json_dumps
                  (fun _ _ => Ok [err_required]) two_ints two_strings_schema
                  [err_required] ["Error: missing required property 'name'."]
                  eq_refl eq_refl)).
Defined.

(** X7. Two engines that yield the same errors in different orders give the
    same entries, each as often, possibly in another order; or both calls
    raise [TypeError]. *)
Theorem validate_json_same_entries
  (re_space : ascii -> bool) (json_dumps : json -> string)
  (iter1 iter2 : json -> json -> result (list ValidationError))
  (inst schema : json) (errs1 errs2 : list ValidationError) :
  iter1 schema inst = Ok errs1 ->
  iter2 schema inst = Ok errs2 ->
  Permutation errs1 errs2 ->
  (exists out1 out2,
      validate_json re_space json_dumps iter1 inst schema = Ok out1
      /\ validate_json re_space json_dumps iter2 inst schema = Ok out2
      /\ Permutation out1 out2)
  \/ (validate_json re_space json_dumps iter1 inst schema = Raise (Builtin TypeError)
      /\ validate_json re_space json_dumps iter2 inst schema = Raise (Builtin TypeError)).
Proof.
  intros H1 H2 Hp. unfold validate_json. rewrite H1, H2. simpl.
  assert (Hps : Permutation (sorted (sort_key re_space) errs1)
                            (sorted (sort_key re_space) errs2)).
  { rewrite !sorted_perm. exact Hp. }
  pose proof (report_outcome re_space json_dumps (sorted (sort_key re_space) errs1)) as O1.
  pose proof (report_outcome re_space json_dumps (sorted (sort_key re_space) errs2)) as O2.
  rewrite <- (forallb_perm (formattable re_space) _ _ Hps) in O2.
  destruct (forallb (formattable re_space) (sorted (sort_key re_space) errs1)).
  - left. destruct O1 as [out1 E1].
    destruct (comprehension_perm _ _ _ Hps out1 E1) as (out2 & E2 & Hperm).
    now exists out1, out2.
  - right. now split.
Qed.

Lemma validate_json_same_entries_witness :
  (exists out1 out2,
      validate_json ascii_space py_json_dumps
        (fun _ _ => Ok [err_a; err_b]) two_ints two_strings_schema = Ok out1
      /\ validate_json ascii_space py_json_dumps
           (fun _ _ => Ok [err_b; err_a]) two_ints two_strings_schema = Ok out2
      /\ Permutation out1 out2)
  \/ (validate_json ascii_space py_json_dumps
        (fun _ _ => Ok [err_a; err_b]) two_ints two_strings_schema
      = Raise (Builtin TypeError)
      /\ validate_json ascii_space py_json_dumps
           (fun _ _ => Ok [err_b; err_a]) two_ints two_strings_schema
         = Raise (Builtin TypeError)).
Proof.
  exact (validate_json_same_entries ascii_space py_json_dumps
           (fun _ _ => Ok [err_a; err_b]) (fun _ _ => Ok [err_b; err_a])
           two_ints two_strings_schema [err_a; err_b] [err_b; err_a]
           eq_refl eq_refl (perm_swap err_b err_a [])).
Defined.

(** X8. Sorting is settled after one pass: an engine that yields the errors
    already in the order of the report gets the same report. *)
Theorem validate_json_presorted
  (re_space : ascii -> bool) (json_dumps : json -> string)
  (iter1 iter2 : json -> json -> result (list ValidationError))
  (inst schema : json) (errs : list ValidationError) :
  iter1 schema inst = Ok errs ->
  iter2 schema inst = Ok (sorted (sort_key re_space) errs) ->
  validate_json re_space json_dumps iter2 inst schema
  = validate_json re_space json_dumps iter1 inst schema.
Proof.
  intros H1 H2. unfold validate_json. rewrite H1, H2. simpl.
  now rewrite sorted_idempotent.
Qed.

Lemma validate_json_presorted_witness :
  validate_json ascii_space py_json_dumps
    (fun _ _ => Ok [err_required; err_age; err_a]) two_ints two_strings_schema
  = validate_json ascii_space py_json_dumps
      (fun _ _ => Ok [err_a; err_age; err_required]) two_ints two_strings_schema.
Proof.
  exact (validate_json_presorted ascii_space py_json_dumps
           (fun _ _ => Ok [err_a; err_age; err_required])
           (fun _ _ => Ok [err_required; err_age; err_a])
           two_ints two_strings_schema [err_a; err_age; err_required]
           eq_refl eq_refl).
Defined.

(** ** Joining *)

Lemma str_join_app (sep : string) (l1 l2 : list string) :
  l1 <> [] -> l2 <> [] ->
  str_join sep (l1 ++ l2) = str_join sep l1 ++ sep ++ str_join sep l2.
Proof.
  intros H1 H2. induction l1 as [|a [|b l1] IH]; [contradiction | |].
  - destruct l2; [contradiction | reflexivity].
  - change (str_join sep ((a :: b :: l1) ++ l2))
      with (a ++ sep ++ str_join sep ((b :: l1) ++ l2)).
    rewrite IH by discriminate.
    change (str_join sep (a :: b :: l1)) with (a ++ sep ++ str_join sep (b :: l1)).
    now rewrite !append_assoc.
Qed.

(** X9. Joining two non-empty lists of entries at once is joining each and
    putting the separator of two newlines between the two texts. *)
Theorem list_to_err_app (errs1 errs2 : list string) :
  errs1 <> [] -> errs2 <> [] ->
  list_to_err (errs1 ++ errs2)
  = list_to_err errs1 ++ String newline (String newline "") ++ list_to_err errs2.
Proof. intros H1 H2. unfold list_to_err. now apply str_join_app. Qed.

Lemma list_to_err_app_witness :
  list_to_err (["A"; "B"] ++ ["C"])
  = list_to_err ["A"; "B"] ++ String newline (String newline "") ++ list_to_err ["C"].
Proof.
  refine (list_to_err_app ["A"; "B"] ["C"] _ _); discriminate.
Defined.

(** ** Locating a program *)

Lemma str_split_nonempty (sep : ascii) (s : string) : str_split sep s <> [].
Proof.
  destruct s as [|c t]; simpl; [discriminate|].
  destruct (Ascii.eqb c sep); [discriminate|].
  destruct (str_split sep t); discriminate.
Qed.

(** Splitting loses nothing: the pieces joined by the separator are the
    text. *)
Lemma str_split_join (sep : ascii) (s : string) :
  str_join (String sep "") (str_split sep s) = s.
Proof.
  induction s as [|c t IH]; [reflexivity|].
  simpl str_split. destruct (Ascii.eqb c sep) eqn:E.
  - apply Ascii.eqb_eq in E. subst c.
    pose proof (str_split_nonempty sep t) as Hne.
    destruct (str_split sep t) as [|w ws]; [contradiction|].
    change (str_join (String sep "") ("" :: w :: ws))
      with ("" ++ String sep "" ++ str_join (String sep "") (w :: ws)).
    now rewrite IH.
  - pose proof (str_split_nonempty sep t) as Hne.
    destruct (str_split sep t) as [|w ws]; [contradiction|].
    destruct ws as [|w' ws'].
    + simpl in IH |- *. now rewrite IH.
    + change (str_join (String sep "") (String c w :: w' :: ws'))
        with (String c (w ++ String sep "" ++ str_join (String sep "") (w' :: ws'))).
      change (str_join (String sep "") (w :: w' :: ws'))
        with (w ++ String sep "" ++ str_join (String sep "") (w' :: ws')) in IH.
      now rewrite IH.
Qed.

(** The first element a search finds: nothing before it qualifies. *)
Lemma find_first {A : Type} (p : A -> bool) (l : list A) (x : A) :
  find p l = Some x ->
  p x = true
  /\ exists before after,
      l = (before ++ x :: after)%list /\ Forall (fun y => p y = false) before.
Proof.
  induction l as [|y l IH]; simpl; [discriminate|].
  destruct (p y) eqn:Ey.
  - intros H. injection H as <-. split; [exact Ey|].
    exists [], l. now split.
  - intros H. destruct (IH H) as (Hx & before & after & -> & Hall).
    split; [exact Hx|]. exists (y :: before), after. split; [reflexivity|].
    now constructor.
Qed.

Lemma find_none_iff {A : Type} (p : A -> bool) (l : list A) :
  find p l = None <-> Forall (fun y => p y = false) l.
Proof.
  induction l as [|y l IH]; simpl; [split; [constructor | reflexivity]|].
  destruct (p y) eqn:Ey.
  - split; [discriminate|]. intros H. inversion H; congruence.
  - rewrite IH. split; [now constructor | intros H; now inversion H].
Qed.

(** X10. What [which] returns is an executable file. For a program given
    with a directory it is the program itself, and the search path is not
    looked at; for a bare name it is one of the candidates built from the
    entries of the search path. *)
Theorem which_returns_executable
  (isfile access_x : string -> bool)
  (os_path_split : string -> string * string)
  (os_path_join : string -> string -> string) (pathsep : ascii)
  (environ : string -> option string) (PATH_ENV : string)
  (program found : string) :
  which isfile access_x os_path_split os_path_join pathsep environ PATH_ENV program
  = Some found ->
  isfile found = true /\ access_x found = true
  /\ (fst (os_path_split program) <> "" -> found = program)
  /\ (fst (os_path_split program) = "" ->
      exists search_path,
        environ PATH_ENV = Some search_path
        /\ In found (exe_files os_path_join pathsep program search_path)).
Proof.
  unfold which. destruct (os_path_split program) as [file_path filename]. simpl fst.
  destruct (String.eqb file_path "") eqn:E; simpl.
  - apply String.eqb_eq in E. subst file_path.
    destruct (environ PATH_ENV) as [search_path|]; [|discriminate].
    intros H. pose proof (find_some _ _ H) as [Hin Hexe].
    unfold is_exe in Hexe. apply andb_true_iff in Hexe as [Hf Hx].
    repeat split; [exact Hf | exact Hx | congruence |].
    intros _. now exists search_path.
  - apply String.eqb_neq in E.
    destruct (is_exe isfile access_x program) eqn:Hexe; [|discriminate].
    intros H. injection H as <-.
    unfold is_exe in Hexe. apply andb_true_iff in Hexe as [Hf Hx].
    repeat split; [exact Hf | exact Hx | contradiction].
Qed.

(** What the two strips leave: the text between the leading and the
    trailing run of the character. *)
Lemma lstrip_char_spec (ch : ascii) (s : string) :
  exists l,
    s = l ++ lstrip_char ch s
    /\ all_char ch l = true
    /\ starts_with_char ch (lstrip_char ch s) = false.
Proof.
  induction s as [|c t IH]; [now exists ""|].
  simpl. destruct (Ascii.eqb c ch) eqn:E.
  - destruct IH as (l & Hl & Hall & Hst).
    exists (String c l). simpl. rewrite E, Hall. repeat split; [|exact Hst].
    now rewrite <- Hl.
  - exists "". simpl. now rewrite E.
Qed.

Lemma rstrip_char_spec (ch : ascii) (s : string) :
  exists r,
    s = rstrip_char ch s ++ r
    /\ all_char ch r = true
    /\ ends_with_char ch (rstrip_char ch s) = false
    /\ (starts_with_char ch s = false ->
        starts_with_char ch (rstrip_char ch s) = false).
Proof.
  induction s as [|c t IH]; [now exists ""|].
  destruct IH as (r & Hr & Hall & Hend & _).
  simpl rstrip_char. destruct (rstrip_char ch t) as [|d t'] eqn:Et.
  - destruct (Ascii.eqb c ch) eqn:E.
    + exists (String c r). simpl in Hr. subst t. simpl. rewrite E, Hall.
      split; [reflexivity|]. split; [reflexivity|]. split; [reflexivity|].
      discriminate.
    + exists r. simpl in Hr. subst t. simpl. rewrite E.
      split; [reflexivity|]. split; [exact Hall|]. split; [reflexivity|].
      intros _. reflexivity.
  - exists r.
    split; [cbn [append] in Hr |- *; now rewrite <- Hr|].
    split; [exact Hall|]. split; [exact Hend|].
    simpl. tauto.
Qed.

Lemma strip_char_spec (ch : ascii) (s : string) :
  exists l r,
    s = l ++ strip_char ch s ++ r
    /\ all_char ch l = true /\ all_char ch r = true
    /\ starts_with_char ch (strip_char ch s) = false
    /\ ends_with_char ch (strip_char ch s) = false.
Proof.
  unfold strip_char.
  destruct (lstrip_char_spec ch s) as (l & Hl & Hla & Hst).
  destruct (rstrip_char_spec ch (lstrip_char ch s)) as (r & Hr & Hra & Hend & Hkeep).
  exists l, r. repeat split; try assumption.
  - now rewrite <- Hr.
  - now apply Hkeep.
Qed.

(** No piece of a split holds the separator. *)
Lemma str_split_no_sep (sep : ascii) (s : string) :
  Forall (fun piece => has_char sep piece = false) (str_split sep s).
Proof.
  induction s as [|c t IH]; [repeat constructor|].
  simpl. destruct (Ascii.eqb c sep) eqn:E.
  - constructor; [reflexivity | exact IH].
  - destruct (str_split sep t) as [|w ws]; [repeat constructor; simpl; now rewrite E|].
    inversion IH as [|? ? Hw Hws]; subst.
    constructor; [simpl; now rewrite E, Hw | exact Hws].
Qed.

(** X11. For a bare program name and a search path, [which] goes through
    the entries of the search path in their order: the pieces between the
    separators, which joined by the separator are the search path. Each
    entry, without the double quotes at its two ends, is joined with the
    name to a candidate. [which] returns the first candidate that is an
    executable file, and [None] exactly when no candidate is one. There is
    a candidate for every entry and at least one: an empty search path has
    the one entry [""]. *)
Theorem which_first_on_path
  (isfile access_x : string -> bool)
  (os_path_split : string -> string * string)
  (os_path_join : string -> string -> string) (pathsep : ascii)
  (environ : string -> option string) (PATH_ENV : string)
  (program search_path : string) :
  fst (os_path_split program) = "" ->
  environ PATH_ENV = Some search_path ->
  let entries := str_split pathsep search_path in
  let candidates :=
    map (fun entry => os_path_join (strip_char dquote entry) program) entries in
  let result :=
    which isfile access_x os_path_split os_path_join pathsep environ PATH_ENV program in
  (str_join (String pathsep "") entries = search_path
   /\ Forall (fun entry => has_char pathsep entry = false) entries
   /\ entries <> []
   /\ (search_path = "" -> entries = [""]))
  /\ (forall entry,
         exists l r,
           entry = l ++ strip_char dquote entry ++ r
           /\ all_char dquote l = true /\ all_char dquote r = true
           /\ starts_with_char dquote (strip_char dquote entry) = false
           /\ ends_with_char dquote (strip_char dquote entry) = false)
  /\ (forall found,
         result = Some found ->
         isfile found = true /\ access_x found = true
         /\ exists before after,
             candidates = (before ++ found :: after)%list
             /\ Forall (fun c => isfile c && access_x c = false) before)
  /\ (result = None <-> Forall (fun c => isfile c && access_x c = false) candidates).
Proof.
  intros Hsplit Henv entries candidates result.
  assert (Hres : result = find (is_exe isfile access_x) candidates).
  { unfold result, which. destruct (os_path_split program) as [file_path filename].
    simpl in Hsplit. subst file_path. simpl. now rewrite Henv. }
  split; [|split; [|split]].
  - split; [apply str_split_join|]. split; [apply str_split_no_sep|].
    split; [apply str_split_nonempty|]. intros ->. reflexivity.
  - intros entry. apply strip_char_spec.
  - intros found H. rewrite Hres in H. apply find_first in H as [Hexe H].
    unfold is_exe in Hexe. apply andb_true_iff in Hexe as [Hf Hx].
    split; [exact Hf|]. split; [exact Hx|]. exact H.
  - rewrite Hres. apply find_none_iff.
Qed.

(** ** Rendering a template as JSON *)



Example posix_split_samples :
  posix_split "/usr/bin/docker" = ("/usr/bin", "docker")
  /\ posix_split "docker" = ("", "docker")
  /\ posix_split "/docker" = ("/", "docker")
  /\ posix_split "bin//docker" = ("bin", "docker")
  /\ posix_split "bin/" = ("bin", "").
Proof. repeat split. Qed.

Example exe_files_sample :
  exe_files posix_join ":" "docker"
    ("/usr/local/bin:" ++ String dquote ("/opt/my tools" ++ String dquote ":/usr/bin"))
  = ["/usr/local/bin/docker"; "/opt/my tools/docker"; "/usr/bin/docker"].
Proof. reflexivity. Qed.

Example which_samples :
  which sample_isfile sample_access_x posix_split posix_join ":" sample_environ "PATH"
    "docker" = Some "/usr/bin/docker"
  /\ which sample_isfile sample_access_x posix_split posix_join ":" sample_environ "PATH"
       "readme" = None
  /\ which sample_isfile sample_access_x posix_split posix_join ":" sample_environ "PATH"
       "/usr/bin/docker" = Some "/usr/bin/docker"
  /\ which sample_isfile sample_access_x posix_split posix_join ":" sample_environ "PATH"
       "bin/docker" = None.
Proof. repeat split. Qed.

Lemma which_returns_executable_witness :
  sample_isfile "/usr/bin/docker" = true /\ sample_access_x "/usr/bin/docker" = true.
Proof.
  pose proof (which_returns_executable sample_isfile sample_access_x posix_split
                posix_join ":" sample_environ "PATH" "docker" "/usr/bin/docker"
                eq_refl) as H.
  exact (conj (proj1 H) (proj1 (proj2 H))).
Defined.

Lemma which_first_on_path_witness :
  sample_isfile "/usr/bin/docker" = true /\ sample_access_x "/usr/bin/docker" = true
  /\ exists before after,
      map (fun entry => posix_join (strip_char dquote entry) "docker")
        (str_split ":"
           ("/usr/local/bin:" ++
            String dquote ("/opt/my tools" ++ String dquote ":/usr/bin")))
      = (before ++ "/usr/bin/docker" :: after)%list
      /\ Forall (fun c => sample_isfile c && sample_access_x c = false) before.
Proof.
  exact (proj1 (proj2 (proj2 (which_first_on_path sample_isfile sample_access_x
                                posix_split posix_join ":" sample_environ "PATH" "docker"
                                ("/usr/local/bin:" ++
                                 String dquote ("/opt/my tools" ++ String dquote ":/usr/bin"))
                                eq_refl eq_refl)))
           "/usr/bin/docker" eq_refl).
Defined.
